(** * chaos.py: a shallow embedding and its verification

    The program starts three generator threads (logistic map, Lorenz system,
    random walk) that put formatted text samples on a shared queue, and one
    collector thread that drains the queue for a time window and folds every
    sample into a SHA-256 hasher.

    The embedding comes first:
    - [SHA256]: the hash function (FIPS 180-4) and the streaming hasher object
      of [hashlib] ([update], [hexdigest]);
    - [Utf8]: Python [str] values and [str.encode('utf-8')];
    - [Collector]: [entropy_collector] over an interface of the three calls it
      makes to its environment ([time.time], [Queue.empty], [Queue.get]), and
      a discrete-event world implementing that interface;
    - [Generators]: the three generator threads, state passing over the
      values they receive from [random], [os.urandom] and the clock; Python
      floats are IEEE binary64, as are Rocq's primitive floats;
    - [Orchestrator]: [run_chaotic_system] on a small model of the thread
      interface.

    The properties follow, module by module ([SHA256Facts], [CollectorFacts],
    [WorldFacts], [GeneratorFacts], [OrchestratorFacts], [Scenarios],
    [SystemFacts]), then the theorems for the claims C1 to C10, and further
    properties of the code, X1 to X18, with the model of the script's
    [__main__] block ([Main]).

    Line 23 of chaos.py reads [x = r * x * (1 - x)git]; the trailing token is
    not Python and the embedding reads the statement without it. *)

From Stdlib Require Import String Ascii.
From Stdlib Require Import ZArith NArith List Bool Lia.
From Stdlib Require Import Init.Byte.
From Stdlib Require Import Floats DecimalString.

Set Warnings "-inexact-float".
Import ListNotations.

Local Open Scope Z_scope.

(* ================================================================== *)
(** * SHA-256 *)
(* ================================================================== *)

Module SHA256.

(** ** 32-bit words, as [Z] with the wrap-around written out *)

Definition wrap32 (x : Z) : Z := x mod 2 ^ 32.
Definition add32 (x y : Z) : Z := wrap32 (x + y).
Definition not32 (x : Z) : Z := Z.lxor x (2 ^ 32 - 1).
Definition shr (n x : Z) : Z := Z.shiftr x n.
Definition rotr (n x : Z) : Z :=
  wrap32 (Z.lor (Z.shiftr x n) (Z.shiftl x (32 - n))).

Definition Ch (x y z : Z) : Z := Z.lxor (Z.land x y) (Z.land (not32 x) z).
Definition Maj (x y z : Z) : Z :=
  Z.lxor (Z.lxor (Z.land x y) (Z.land x z)) (Z.land y z).
Definition bigsigma0 (x : Z) : Z :=
  Z.lxor (Z.lxor (rotr 2 x) (rotr 13 x)) (rotr 22 x).
Definition bigsigma1 (x : Z) : Z :=
  Z.lxor (Z.lxor (rotr 6 x) (rotr 11 x)) (rotr 25 x).
Definition smallsigma0 (x : Z) : Z :=
  Z.lxor (Z.lxor (rotr 7 x) (rotr 18 x)) (shr 3 x).
Definition smallsigma1 (x : Z) : Z :=
  Z.lxor (Z.lxor (rotr 17 x) (rotr 19 x)) (shr 10 x).

(** Round constants: the first 32 bits of the fractional parts of the cube
    roots of the first 64 primes (in decimal). *)
Definition K : list Z :=
  [ 1116352408; 1899447441; 3049323471; 3921009573;
    961987163; 1508970993; 2453635748; 2870763221;
    3624381080; 310598401; 607225278; 1426881987;
    1925078388; 2162078206; 2614888103; 3248222580;
    3835390401; 4022224774; 264347078; 604807628;
    770255983; 1249150122; 1555081692; 1996064986;
    2554220882; 2821834349; 2952996808; 3210313671;
    3336571891; 3584528711; 113926993; 338241895;
    666307205; 773529912; 1294757372; 1396182291;
    1695183700; 1986661051; 2177026350; 2456956037;
    2730485921; 2820302411; 3259730800; 3345764771;
    3516065817; 3600352804; 4094571909; 275423344;
    430227734; 506948616; 659060556; 883997877;
    958139571; 1322822218; 1537002063; 1747873779;
    1955562222; 2024104815; 2227730452; 2361852424;
    2428436474; 2756734187; 3204031479; 3329325298 ].

(** The eight chaining words. *)
Record chain : Type := Chain {
  ha : Z; hb : Z; hc : Z; hd : Z; he : Z; hf : Z; hg : Z; hh : Z
}.

(** Initial value: fractional parts of the square roots of the first 8 primes. *)
Definition H0 : chain :=
  Chain 1779033703 3144134277 1013904242 2773480762
        1359893119 2600822924 528734635 1541459225.

Definition chain_words (c : chain) : list Z :=
  [ha c; hb c; hc c; hd c; he c; hf c; hg c; hh c].

(** ** Bytes *)

Definition byte_of_Z (z : Z) : byte :=
  match Byte.of_N (Z.to_N (z mod 256)) with
  | Some b => b
  | None => x00
  end.

Definition Z_of_byte (b : byte) : Z := Z.of_N (Byte.to_N b).

(** Big-endian word from four bytes, and back. *)
Definition word_of_bytes (b3 b2 b1 b0 : byte) : Z :=
  Z.lor (Z.lor (Z.shiftl (Z_of_byte b3) 24) (Z.shiftl (Z_of_byte b2) 16))
        (Z.lor (Z.shiftl (Z_of_byte b1) 8) (Z_of_byte b0)).

Definition bytes_of_word (w : Z) : list byte :=
  [byte_of_Z (Z.shiftr w 24); byte_of_Z (Z.shiftr w 16);
   byte_of_Z (Z.shiftr w 8); byte_of_Z w].

(** The sixteen message words of a 64-byte block (missing bytes read as 0). *)
Fixpoint block_words (n : nat) (bs : list byte) : list Z :=
  match n with
  | O => []
  | S n' =>
      word_of_bytes (nth 0 bs x00) (nth 1 bs x00) (nth 2 bs x00) (nth 3 bs x00)
      :: block_words n' (skipn 4 bs)
  end.

(** ** Message schedule and compression function *)

Fixpoint schedule (n : nat) (w : list Z) : list Z :=
  match n with
  | O => w
  | S n' =>
      let t := length w in
      let x := add32 (add32 (smallsigma1 (nth (t - 2) w 0)) (nth (t - 7) w 0))
                     (add32 (smallsigma0 (nth (t - 15) w 0)) (nth (t - 16) w 0)) in
      schedule n' (w ++ [x])
  end.

Definition round (v : chain) (kw : Z * Z) : chain :=
  let (k, w) := kw in
  let t1 := add32 (add32 (add32 (hh v) (bigsigma1 (he v)))
                         (add32 (Ch (he v) (hf v) (hg v)) k)) w in
  let t2 := add32 (bigsigma0 (ha v)) (Maj (ha v) (hb v) (hc v)) in
  Chain (add32 t1 t2) (ha v) (hb v) (hc v) (add32 (hd v) t1) (he v) (hf v) (hg v).

Definition compress (c : chain) (block : list byte) : chain :=
  let w := schedule 48 (block_words 16 block) in
  let v := fold_left round (combine K w) c in
  Chain (add32 (ha c) (ha v)) (add32 (hb c) (hb v))
        (add32 (hc c) (hc v)) (add32 (hd c) (hd v))
        (add32 (he c) (he v)) (add32 (hf c) (hf v))
        (add32 (hg c) (hg v)) (add32 (hh c) (hh v)).

(** [absorb n c bs] feeds the first [n] 64-byte blocks of [bs] to the
    compression function. *)
Fixpoint absorb (n : nat) (c : chain) (bs : list byte) : chain :=
  match n with
  | O => c
  | S n' => absorb n' (compress c (firstn 64 bs)) (skipn 64 bs)
  end.

(** ** Padding and the one-shot hash *)

(** The 64-bit big-endian bit length. *)
Definition length_bytes (bits : Z) : list byte :=
  [byte_of_Z (Z.shiftr bits 56); byte_of_Z (Z.shiftr bits 48);
   byte_of_Z (Z.shiftr bits 40); byte_of_Z (Z.shiftr bits 32);
   byte_of_Z (Z.shiftr bits 24); byte_of_Z (Z.shiftr bits 16);
   byte_of_Z (Z.shiftr bits 8); byte_of_Z bits].

(** The padding appended to a message of [len] bytes: 0x80, then zeros up to
    56 mod 64, then the bit length. *)
Definition padding (len : nat) : list byte :=
  x80 :: repeat x00 ((119 - len mod 64) mod 64)%nat
      ++ length_bytes (8 * Z.of_nat len).

Definition pad (m : list byte) : list byte := m ++ padding (length m).

Definition digest_bytes (c : chain) : list byte :=
  flat_map bytes_of_word (chain_words c).

(** SHA-256 of a whole message. *)
Definition sha256 (m : list byte) : list byte :=
  digest_bytes (absorb (length (pad m) / 64)%nat H0 (pad m)).

(** ** Lowercase hexadecimal *)

Definition hex_digit (n : N) : ascii :=
  match n with
  | 0%N => "0" | 1%N => "1" | 2%N => "2" | 3%N => "3"
  | 4%N => "4" | 5%N => "5" | 6%N => "6" | 7%N => "7"
  | 8%N => "8" | 9%N => "9" | 10%N => "a" | 11%N => "b"
  | 12%N => "c" | 13%N => "d" | 14%N => "e" | _ => "f"
  end%char.

Fixpoint hex (bs : list byte) : string :=
  match bs with
  | [] => EmptyString
  | b :: bs' =>
      String (hex_digit (Byte.to_N b / 16))
        (String (hex_digit (Byte.to_N b mod 16)) (hex bs'))
  end.

Definition is_lower_hex (c : ascii) : bool :=
  let n := N_of_ascii c in
  ((48 <=? n) && (n <=? 57) || (97 <=? n) && (n <=? 102))%N.

Fixpoint all_chars (p : ascii -> bool) (s : string) : bool :=
  match s with
  | EmptyString => true
  | String c s' => p c && all_chars p s'
  end.

(** ** The hasher object of [hashlib.sha256()]

    The object keeps the chaining value of the full blocks seen so far, the
    bytes of the unfinished block, and the number of bytes fed. *)

Record hasher : Type := Hasher {
  h_chain : chain;
  h_buf : list byte;
  h_len : nat
}.

(** [hashlib.sha256()] *)
Definition new : hasher := Hasher H0 [] 0.

(** [hasher.update(data)] *)
Definition update (h : hasher) (data : list byte) : hasher :=
  let all := h_buf h ++ data in
  let n := (length all / 64)%nat in
  Hasher (absorb n (h_chain h) all) (skipn (64 * n) all)
         (h_len h + length data)%nat.

(** [hasher.digest()]: pads a copy of the state; the object is unchanged. *)
Definition digest (h : hasher) : list byte :=
  let tail := h_buf h ++ padding (h_len h) in
  digest_bytes (absorb (length tail / 64)%nat (h_chain h) tail).

(** [hasher.hexdigest()] *)
Definition hexdigest (h : hasher) : string := hex (digest h).

End SHA256.

Definition bytes_of_string (s : string) : list byte := list_byte_of_string s.

(* ================================================================== *)
(** * Python strings and [str.encode('utf-8')] *)
(* ================================================================== *)

Module Utf8.

(** A Python [str] is a sequence of code points. *)
Definition pystr : Type := list N.

Definition byte_of_N (n : N) : byte :=
  match Byte.of_N n with
  | Some b => b
  | None => x00
  end.

(** One code point; lone surrogates and values past U+10FFFF have no
    encoding ([UnicodeEncodeError]). *)
Definition encode_char (c : N) : option (list byte) :=
  (if c <? 128 then Some [byte_of_N c]
   else if c <? 2048 then
     Some [byte_of_N (192 + c / 64); byte_of_N (128 + c mod 64)]
   else if c <? 65536 then
     if (55296 <=? c) && (c <=? 57343) then None
     else Some [byte_of_N (224 + c / 4096);
                byte_of_N (128 + (c / 64) mod 64);
                byte_of_N (128 + c mod 64)]
   else if c <? 1114112 then
     Some [byte_of_N (240 + c / 262144);
           byte_of_N (128 + (c / 4096) mod 64);
           byte_of_N (128 + (c / 64) mod 64);
           byte_of_N (128 + c mod 64)]
   else None)%N.

(** [s.encode('utf-8')]; [None] stands for the exception. *)
Fixpoint encode (s : pystr) : option (list byte) :=
  match s with
  | [] => Some []
  | c :: s' =>
      match encode_char c, encode s' with
      | Some a, Some b => Some (a ++ b)
      | _, _ => None
      end
  end.

(** Text written in this file as a Rocq string, read as a Python [str]. *)
Definition of_string (s : string) : pystr :=
  map N_of_ascii (list_ascii_of_string s).

Definition is_ascii (s : string) : bool :=
  forallb (fun c => (N_of_ascii c <? 128)%N) (list_ascii_of_string s).

End Utf8.

(* ================================================================== *)
(** * The collector thread: [entropy_collector] *)
(* ================================================================== *)

Module Collector.
Import Utf8.

(** The collector talks to the rest of the system through three calls. The
    clock is read in whole milliseconds, so the [timeout=0.1] of [queue.get]
    is 100. *)
Class Env (W : Type) : Type := {
  (** [time.time()] *)
  time_time : W -> Z * W;
  (** [queue.empty()] *)
  queue_empty : W -> bool * W;
  (** [queue.get(timeout=0.1)]; [None] stands for the [Empty] exception *)
  queue_get : W -> option pystr * W
}.

(** One turn of the [while] loop, kept as a ghost record of the run: whether
    the deadline had passed when the loop condition was evaluated, and what
    [queue.get] delivered. *)
Record turn : Type := Turn {
  late : bool;
  got : option pystr
}.

(** The samples dequeued during a run, in dequeue order. *)
Definition dequeued (log : list turn) : list pystr :=
  flat_map (fun t => match got t with Some s => [s] | None => [] end) log.

(** Successful pops made after the deadline. *)
Definition late_pops (log : list turn) : nat :=
  length (filter (fun t => late t && match got t with Some _ => true | None => false end) log).

(** Pops made after the deadline that ended in [Empty]. *)
Definition late_timeouts (log : list turn) : nat :=
  length (filter (fun t => late t && match got t with Some _ => false | None => true end) log).

Section Loop.
Context {W : Type} {E : Env W}.

(** The [while] loop of [entropy_collector]. [fuel] bounds the number of
    turns; [None] means the loop was still running when it ran out.

    The bare [except:] swallows the [Empty] of [queue.get] and also a failure
    of [encode]: in both cases the hasher is left as it was. *)
Fixpoint collector_loop (fuel : nat) (end_time : Z) (hasher : SHA256.hasher)
    (log : list turn) (w : W) : option (SHA256.hasher * list turn * W) :=
  match fuel with
  | O => None
  | S fuel' =>
      let (t, w1) := time_time w in
      let (go, w2) :=
        if t <? end_time then (true, w1)
        else let (e, w2) := queue_empty w1 in (negb e, w2) in
      if go then
        let (r, w3) := queue_get w2 in
        let log' := log ++ [Turn (negb (t <? end_time)) r] in
        match r with
        | Some data_chunk =>
            match encode data_chunk with
            | Some bytes =>
                collector_loop fuel' end_time (SHA256.update hasher bytes) log' w3
            | None => collector_loop fuel' end_time hasher log' w3
            end
        | None => collector_loop fuel' end_time hasher log' w3
        end
      else Some (hasher, log, w2)
  end.

(** [entropy_collector(queue, final_result, run_time)]. [final_result] is the
    list shared with the caller: the returned list is its content after the
    [append]. [run_time] is in milliseconds. *)
Definition entropy_collector (fuel : nat) (final_result : list string)
    (run_time : Z) (w : W) : option (list string * list turn * W) :=
  let (t0, w1) := time_time w in
  let end_time := t0 + run_time in
  let hasher := SHA256.new in
  match collector_loop fuel end_time hasher [] w1 with
  | Some (hasher', log, w2) =>
      let final_hash := SHA256.hexdigest hasher' in
      Some (final_result ++ [final_hash], log, w2)
  | None => None
  end.

End Loop.

(** ** A discrete-event world

    The producers are given by the samples they will put and when: [pending]
    lists the future [put]s with their times, in time order; [fifo] is the
    content of the queue; [tick] is the time the collector spends on a sample
    it has dequeued. *)
Record world : Type := World {
  now : Z;
  tick : N;
  pending : list (Z * pystr);
  fifo : list pystr
}.

(** The [put]s that have happened by [t] move to the queue, in order. *)
Fixpoint deliver (t : Z) (p : list (Z * pystr)) (q : list pystr)
  : list (Z * pystr) * list pystr :=
  match p with
  | (ts, s) :: p' => if ts <=? t then deliver t p' (q ++ [s]) else (p, q)
  | [] => ([], q)
  end.

Definition arrive (w : world) : world :=
  let (p, q) := deliver (now w) (pending w) (fifo w) in
  World (now w) (tick w) p q.

Definition timeout : Z := 100.

Definition world_time (w : world) : Z * world := (now w, w).

Definition world_empty (w : world) : bool * world :=
  let w' := arrive w in
  (match fifo w' with [] => true | _ :: _ => false end, w').

(** A [get] returns the head of the queue at once; on an empty queue it waits
    for the next [put], up to the timeout. *)
Definition world_get (w : world) : option pystr * world :=
  let w' := arrive w in
  match fifo w' with
  | s :: q => (Some s, World (now w' + Z.of_N (tick w')) (tick w') (pending w') q)
  | [] =>
      match pending w' with
      | (ts, s) :: p =>
          if ts <=? now w' + timeout
          then (Some s, World (ts + Z.of_N (tick w')) (tick w') p [])
          else (None, World (now w' + timeout) (tick w') (pending w') [])
      | [] => (None, World (now w' + timeout) (tick w') [] [])
      end
  end.

#[export] Instance world_env : Env world := {
  time_time := world_time;
  queue_empty := world_empty;
  queue_get := world_get
}.

(** Samples still to be dequeued. *)
Definition items (w : world) : nat := length (pending w) + length (fifo w).

(** Timeouts that fit before the deadline. *)
Definition slack (end_time : Z) (w : world) : nat :=
  Z.to_nat ((end_time - now w + (timeout - 1)) / timeout).

End Collector.

(* ================================================================== *)
(** * The generator threads *)
(* ================================================================== *)

Module Generators.
Import Utf8.

(** ** Python values the generators handle *)

(** Objects that can be passed as the unused first argument. *)
Inductive pyobj : Type :=
| PyNone
| PyInt (n : Z)
| PyFloat (x : float)
| PyStr (s : pystr).

(** [str(n)] for an [int]. *)
Definition str_of_Z (z : Z) : string := NilZero.string_of_int (Z.to_int z).

(** [float(n)] for an [int] of small magnitude. *)
Definition float_of_Z (z : Z) : float :=
  if z <? 0 then (- PrimFloat.of_uint63 (Uint63.of_Z (- z)))%float
  else PrimFloat.of_uint63 (Uint63.of_Z z).

(** Nearest integer to [num / den], ties to even. *)
Definition round_half_even (num den : Z) : Z :=
  let q := num / den in
  let r := num mod den in
  if 2 * r <? den then q
  else if den <? 2 * r then q + 1
  else if Z.even q then q else q + 1.

Definition fixed6 (n : Z) : string :=
  (str_of_Z (n / 1000000) ++ "." ++
   substring 1 6 (str_of_Z (1000000 + n mod 1000000)))%string.

(** The format specification [.6f]: the exact binary value rounded to six
    decimals, ties to even. *)
Definition fmt6 (x : float) : string :=
  match Prim2SF x with
  | S754_nan => "nan"%string
  | S754_infinity s => if s then "-inf"%string else "inf"%string
  | S754_zero s => if s then "-0.000000"%string else "0.000000"%string
  | S754_finite s m e =>
      let n := if 0 <=? e then Z.pos m * 1000000 * 2 ^ e
               else round_half_even (Z.pos m * 1000000) (2 ^ (- e)) in
      ((if s then "-" else "") ++ fixed6 n)%string
  end.

(** [int.from_bytes(bs, byteorder='big', signed=False)] *)
Definition int_from_bytes (bs : list byte) : Z :=
  fold_left (fun acc b => acc * 256 + SHA256.Z_of_byte b) bs 0.

(** ** The environment of one generator thread

    What the thread receives from outside, call by call: the values that
    [random.random()] returns to it, the bytes of the operating system's
    random source, and the readings of [time.perf_counter_ns()]. *)
Record oracle : Type := Oracle {
  rand : nat -> float;
  os_random : nat -> byte;
  perf_counter : nat -> Z
}.

(** What the thread does to the outside. *)
Inductive effect : Type :=
| Sleep (seconds : float)
| Put (queue : nat) (item : pystr).

(** Calls made so far to each source, and the effects so far, oldest first. *)
Record gstate : Type := GState {
  n_rand : nat;
  n_bytes : nat;
  n_clock : nat;
  effects : list effect
}.

Definition start : gstate := GState 0 0 0 [].

Definition gen (A : Type) : Type := oracle -> gstate -> A * gstate.

Definition ret {A} (a : A) : gen A := fun _ s => (a, s).

Definition bind {A B} (m : gen A) (k : A -> gen B) : gen B :=
  fun o s => let (a, s') := m o s in k a o s'.

Notation "x <- m ;; k" := (bind m (fun x => k))
  (at level 61, m at next level, right associativity).
Notation "m ;; k" := (bind m (fun _ => k))
  (at level 61, right associativity).

(** [random.random()] *)
Definition random_random : gen float :=
  fun o s => (rand o (n_rand s),
              GState (S (n_rand s)) (n_bytes s) (n_clock s) (effects s)).

(** [random.uniform(a, b)], which is [a + (b - a) * self.random()] *)
Definition random_uniform (a b : float) : gen float :=
  u <- random_random ;; ret (a + (b - a) * u)%float.

(** [os.urandom(n)] *)
Definition os_urandom (n : nat) : gen (list byte) :=
  fun o s => (map (os_random o) (seq (n_bytes s) n),
              GState (n_rand s) (n_bytes s + n) (n_clock s) (effects s)).

(** [time.perf_counter_ns()] *)
Definition time_perf_counter_ns : gen Z :=
  fun o s => (perf_counter o (n_clock s),
              GState (n_rand s) (n_bytes s) (S (n_clock s)) (effects s)).

Definition emit (e : effect) : gen unit :=
  fun _ s => (tt, GState (n_rand s) (n_bytes s) (n_clock s) (effects s ++ [e])).

(** [time.sleep(seconds)] *)
Definition time_sleep (seconds : float) : gen unit := emit (Sleep seconds).

(** [queue.put(item)] *)
Definition queue_put (queue : nat) (item : string) : gen unit :=
  emit (Put queue (of_string item)).

Local Open Scope float_scope.
Local Open Scope string_scope.

(** ** Logistic map *)

Fixpoint logistic_loop (steps : nat) (queue : nat) (r x : float) : gen unit :=
  match steps with
  | O => ret tt
  | S steps' =>
      let x := r * x * (1 - x) in
      u <- random_random ;;
      time_sleep (u / 10000.0) ;;
      t <- time_perf_counter_ns ;;
      let mix_data := fmt6 r ++ "_" ++ fmt6 x ++ "_" ++ str_of_Z t in
      queue_put queue mix_data ;;
      logistic_loop steps' queue r x
  end.

(** The statements before the loop: the rate [r] and the initial [x]. *)
Definition logistic_init : gen (float * float) :=
  r <- random_uniform 3.7 4.0 ;;
  x <- random_random ;;
  ret (r, x).

Definition logistic_map_thread (entropy_pool : pyobj) (queue : nat)
    (steps : Z) : gen unit :=
  rx <- logistic_init ;;
  logistic_loop (Z.to_nat steps) queue (fst rx) (snd rx).

(** ** Lorenz system *)

Definition dt : float := 0.01.

Fixpoint lorenz_loop (steps : nat) (queue : nat) (sigma rho beta : float)
    (x y z : float) : gen unit :=
  match steps with
  | O => ret tt
  | S steps' =>
      let dx := sigma * (y - x) * dt in
      let dy := (x * (rho - z) - y) * dt in
      let dz := (x * y - beta * z) * dt in
      let x := x + dx in
      let y := y + dy in
      let z := z + dz in
      u <- random_random ;;
      time_sleep (u / 10000.0) ;;
      t <- time_perf_counter_ns ;;
      let mix_data :=
        fmt6 sigma ++ "_" ++ fmt6 rho ++ "_" ++ fmt6 beta ++ "_" ++
        fmt6 x ++ "_" ++ fmt6 y ++ "_" ++ fmt6 z ++ "_" ++ str_of_Z t in
      queue_put queue mix_data ;;
      lorenz_loop steps' queue sigma rho beta x y z
  end.

Record lorenz_start : Type := LorenzStart {
  l_sigma : float; l_rho : float; l_beta : float;
  l_x : float; l_y : float; l_z : float
}.

(** The statements before the loop: the parameters and the initial point. *)
Definition lorenz_init : gen lorenz_start :=
  sigma <- random_uniform 9.0 11.0 ;;
  rho <- random_uniform 27.0 29.0 ;;
  beta <- random_uniform 2.5 3.0 ;;
  x <- random_random ;;
  y <- random_random ;;
  z <- random_random ;;
  ret (LorenzStart sigma rho beta x y z).

Definition lorenz_system_thread (entropy_pool : pyobj) (queue : nat)
    (steps : Z) : gen unit :=
  c <- lorenz_init ;;
  lorenz_loop (Z.to_nat steps) queue (l_sigma c) (l_rho c) (l_beta c) (l_x c) (l_y c) (l_z c).

(** ** Random walk *)

(** One iteration of the loop body; returns the new position. *)
Definition random_walk_step (queue : nat) (position : float) : gen float :=
  sys_random_bytes <- os_urandom 8 ;;
  let sys_random_value := int_from_bytes sys_random_bytes in
  let shift := (sys_random_value mod 100 - 50)%Z in
  let position := position + float_of_Z shift * 0.001 in
  u <- random_random ;;
  time_sleep (u / 10000.0) ;;
  t <- time_perf_counter_ns ;;
  let mix_data :=
    fmt6 position ++ "_" ++ str_of_Z sys_random_value ++ "_" ++ str_of_Z t in
  queue_put queue mix_data ;;
  ret position.

Fixpoint random_walk_loop (steps : nat) (queue : nat) (position : float)
  : gen unit :=
  match steps with
  | O => ret tt
  | S steps' =>
      position <- random_walk_step queue position ;;
      random_walk_loop steps' queue position
  end.

Definition random_walk_thread (entropy_pool : pyobj) (queue : nat)
    (steps : Z) : gen unit :=
  let position := 0.0 in
  random_walk_loop (Z.to_nat steps) queue position.

(** The items a thread put on the queue, in order. *)
Definition puts (es : list effect) : list pystr :=
  flat_map (fun e => match e with Put _ s => [s] | Sleep _ => [] end) es.

(** The same with the queue each item was put on. *)
Definition sends (es : list effect) : list (nat * pystr) :=
  flat_map (fun e => match e with Put q s => [(q, s)] | Sleep _ => [] end) es.

(** The effects of running a thread body from the start. *)
Definition run (body : gen unit) (o : oracle) : list effect :=
  effects (snd (body o start)).

End Generators.

(* ================================================================== *)
(** * The orchestrator: [run_chaotic_system] *)
(* ================================================================== *)

Module Orchestrator.
Import Collector Generators Utf8.

(** The three generator functions. *)
Inductive target : Type := LogisticMap | LorenzSystem | RandomWalk.

Definition body (f : target) : pyobj -> nat -> Z -> gen unit :=
  match f with
  | LogisticMap => logistic_map_thread
  | LorenzSystem => lorenz_system_thread
  | RandomWalk => random_walk_thread
  end.

(** A [threading.Thread] object: its target and its arguments. The
    collector's [final_result] argument is the one list of the machine. *)
Inductive thread : Type :=
| Generator (f : target) (entropy_pool : pyobj) (queue : nat) (steps : Z)
| EntropyCollector (queue : nat) (run_time : Z).

(** What the program does not decide: the clock when the collector thread
    starts, the time the collector spends on a sample, and for the thread
    started as number [i] its oracle, the time it starts running and the time
    that passes before each of its [put]s. Times are in milliseconds. *)
Record system : Type := System {
  clock : Z;
  cpu : N;
  oracles : nat -> oracle;
  started_at : nat -> Z;
  gaps : nat -> nat -> N
}.

(** A [put] on its way: when it happens, on which queue, and the item. *)
Definition arrival : Type := (Z * (nat * pystr))%type.

(** The [put]s of one thread with their times: [put] number [k] happens
    [gap k] after the one before it. *)
Fixpoint timed (t : Z) (gap : nat -> N) (k : nat) (items : list (nat * pystr))
  : list arrival :=
  match items with
  | [] => []
  | s :: rest =>
      let t' := t + Z.of_N (gap k) in
      (t', s) :: timed t' gap (S k) rest
  end.

(** Interleaving by time of two time-ordered lists of [put]s. *)
Fixpoint merge (l1 : list arrival) : list arrival -> list arrival :=
  fix merge_l1 (l2 : list arrival) : list arrival :=
    match l1, l2 with
    | [], _ => l2
    | _, [] => l1
    | a1 :: r1, a2 :: r2 =>
        if fst a1 <=? fst a2 then a1 :: merge r1 l2 else a2 :: merge_l1 r2
    end.

(** The [put]s addressed to one queue. *)
Definition for_queue (q : nat) (l : list arrival) : list (Z * pystr) :=
  flat_map (fun a => if Nat.eqb (fst (snd a)) q then [(fst a, snd (snd a))] else []) l.

(** The state of the process as the main thread sees it. *)
Record machine : Type := Machine {
  m_queues : nat;                 (** [Queue] objects created *)
  m_started : list thread;        (** threads started, in order *)
  m_joined : list thread;         (** threads joined, in order *)
  m_pending : list arrival;       (** the [put]s of the started generators *)
  m_final_result : list string;   (** the shared list [final_result] *)
  m_log : list turn;              (** ghost: the turns of the collector *)
  m_world : option world          (** the world the collector left behind *)
}.

Definition boot : machine := Machine 0 [] [] [] [] [] None.

(** [Queue()]: the new queue is known by its number. *)
Definition queue_new (m : machine) : nat * machine :=
  (m_queues m,
   Machine (S (m_queues m)) (m_started m) (m_joined m) (m_pending m)
           (m_final_result m) (m_log m) (m_world m)).

(** [Thread.start()] of the thread started as number [i]. A generator runs
    from then on by itself: its [put]s are scheduled. *)
Definition thread_start (sys : system) (i : nat) (t : thread) (m : machine)
  : machine :=
  let pending :=
    match t with
    | Generator f entropy_pool queue steps =>
        merge (m_pending m)
              (timed (started_at sys i) (gaps sys i) 0
                     (sends (run (body f entropy_pool queue steps) (oracles sys i))))
    | EntropyCollector _ _ => m_pending m
    end in
  Machine (m_queues m) (m_started m ++ [t]) (m_joined m) pending
          (m_final_result m) (m_log m) (m_world m).

(** [Thread.join()]: the main thread waits until the thread has returned.
    For the collector this is the run of [entropy_collector]. *)
Definition thread_join (sys : system) (fuel : nat) (t : thread) (m : machine)
  : option machine :=
  match t with
  | Generator _ _ _ _ =>
      Some (Machine (m_queues m) (m_started m) (m_joined m ++ [t]) (m_pending m)
                    (m_final_result m) (m_log m) (m_world m))
  | EntropyCollector queue run_time =>
      let w := World (clock sys) (cpu sys) (for_queue queue (m_pending m)) [] in
      match entropy_collector fuel (m_final_result m) run_time w with
      | Some (final_result, log, w') =>
          Some (Machine (m_queues m) (m_started m) (m_joined m ++ [t]) (m_pending m)
                        final_result log (Some w'))
      | None => None
      end
  end.

(** [run_chaotic_system(total_time)]; [total_time] is in milliseconds. The
    list [final_result] is the machine's, empty at the start. The result is
    [None] when the collector is still running after [fuel] turns; otherwise
    the returned Python value ([None] there is Python's [None]) and the final
    machine. *)
Definition run_chaotic_system (sys : system) (fuel : nat) (total_time : Z)
  : option (option string * machine) :=
  let (queue, m) := queue_new boot in
  let t1 := Generator LogisticMap PyNone queue 10000 in
  let t2 := Generator LorenzSystem PyNone queue 10000 in
  let t3 := Generator RandomWalk PyNone queue 10000 in
  let collector_thread := EntropyCollector queue total_time in
  let m := thread_start sys 1 t1 m in
  let m := thread_start sys 2 t2 m in
  let m := thread_start sys 3 t3 m in
  let m := thread_start sys 4 collector_thread m in
  match thread_join sys fuel collector_thread m with
  | Some m =>
      Some (match m_final_result m with
            | final_hash :: _ => Some final_hash
            | [] => None
            end, m)
  | None => None
  end.

(** The same program with another object in the place of the [None] passed
    to the generators, to state that they ignore it. *)
Definition run_with_pool (entropy_pool : pyobj) (sys : system) (fuel : nat)
    (total_time : Z) : option (option string * machine) :=
  let (queue, m) := queue_new boot in
  let t1 := Generator LogisticMap entropy_pool queue 10000 in
  let t2 := Generator LorenzSystem entropy_pool queue 10000 in
  let t3 := Generator RandomWalk entropy_pool queue 10000 in
  let collector_thread := EntropyCollector queue total_time in
  let m := thread_start sys 1 t1 m in
  let m := thread_start sys 2 t2 m in
  let m := thread_start sys 3 t3 m in
  let m := thread_start sys 4 collector_thread m in
  match thread_join sys fuel collector_thread m with
  | Some m =>
      Some (match m_final_result m with
            | final_hash :: _ => Some final_hash
            | [] => None
            end, m)
  | None => None
  end.

(** Turns that are always enough for the collector of [run_chaotic_system]:
    one per sample of the generators, one per timeout that fits in the
    window, and the last one. *)
Definition enough (total_time : Z) : nat :=
  S (Z.to_nat 30000 + Z.to_nat ((total_time + (timeout - 1)) / timeout)).

End Orchestrator.

(* ================================================================== *)
(** * Properties *)
(* ================================================================== *)

Example sha256_abc :
  SHA256.hex (SHA256.sha256 (bytes_of_string "abc")) =
  "ba7816bf8f01cfea414140de5dae2223b00361a396177a9cb410ff61f20015ad"%string.
Proof. vm_compute. reflexivity. Qed.

Example sha256_empty :
  SHA256.hex (SHA256.sha256 []) =
  "e3b0c44298fc1c149afbf4c8996fb92427ae41e4649b934ca495991b7852b855"%string.
Proof. vm_compute. reflexivity. Qed.

(** The streaming object agrees with [hashlib] test vectors that span several
    blocks and several [update] calls. *)
Example hasher_two_blocks :
  SHA256.hexdigest
    (SHA256.update (SHA256.update SHA256.new (repeat x61 50)) (repeat x61 14)) =
  "ffe054fe7ae0cb6dc65c3af9b61d5209f439851db43d0ba5997337df154668eb"%string.
Proof. vm_compute. reflexivity. Qed.

Example hasher_pad_overflow :
  SHA256.hexdigest (SHA256.update SHA256.new (repeat x61 56)) =
  "b35439a4ac6f0948b6d6f9e3c6af0f5f590ce20f1bde7090ef7970686ec6738a"%string.
Proof. vm_compute. reflexivity. Qed.

(* ------------------------------------------------------------------ *)
(** ** The streaming hasher computes the one-shot hash *)
(* ------------------------------------------------------------------ *)

Module SHA256Facts.
Import SHA256.

Local Open Scope nat_scope.

Lemma absorb_firstn (n : nat) : forall c bs,
  absorb n c (firstn (64 * n) bs) = absorb n c bs.
Proof.
  induction n as [|n IH]; intros c bs; [reflexivity|].
  replace (64 * S n) with (64 + 64 * n) by lia.
  cbn [absorb].
  rewrite firstn_firstn, Nat.min_l by lia.
  rewrite <- firstn_skipn_comm.
  apply IH.
Qed.

Lemma absorb_app (n k : nat) : forall c a b,
  length a = 64 * n ->
  absorb (n + k) c (a ++ b) = absorb k (absorb n c a) b.
Proof.
  induction n as [|n IH]; intros c a b Ha.
  - destruct a; [reflexivity | discriminate].
  - cbn [absorb Nat.add].
    rewrite firstn_app, skipn_app.
    replace (64 - length a) with 0 by lia.
    rewrite firstn_O, skipn_O, app_nil_r.
    apply IH. rewrite length_skipn. lia.
Qed.

(** [fed h m]: the hasher [h] is in the state reached after the bytes [m]. *)
Definition fed (h : hasher) (m : list byte) : Prop :=
  h_chain h = absorb (length m / 64) H0 m /\
  h_buf h = skipn (64 * (length m / 64)) m /\
  h_len h = length m.

Lemma fed_new : fed new [].
Proof. repeat split. Qed.

Lemma split_blocks (m : list byte) :
  let n := length m / 64 in
  m = firstn (64 * n) m ++ skipn (64 * n) m /\
  length (firstn (64 * n) m) = 64 * n /\
  length (skipn (64 * n) m) = length m mod 64.
Proof.
  intros n. subst n.
  pose proof (Nat.div_mod_eq (length m) 64) as E.
  split; [symmetry; apply firstn_skipn|].
  rewrite length_firstn, length_skipn. lia.
Qed.

Lemma div_blocks (a b : nat) :
  (a + b) / 64 = a / 64 + (a mod 64 + b) / 64.
Proof.
  rewrite (Nat.div_mod_eq a 64) at 1.
  rewrite <- Nat.add_assoc, Nat.mul_comm, Nat.div_add_l by lia.
  reflexivity.
Qed.

Lemma fed_update (h : hasher) (m d : list byte) :
  fed h m -> fed (update h d) (m ++ d).
Proof.
  intros (Hc & Hb & Hl).
  destruct (split_blocks m) as (Em & Lp & Lb).
  set (n1 := length m / 64) in *.
  set (P := firstn (64 * n1) m) in *.
  set (B := skipn (64 * n1) m) in *.
  assert (Hn : length (m ++ d) / 64 = n1 + length (B ++ d) / 64).
  { rewrite !length_app, Lb. apply div_blocks. }
  unfold fed, update. rewrite Hb, Hc, Hl. cbn [h_chain h_buf h_len].
  fold B. rewrite Hn.
  set (n2 := length (B ++ d) / 64).
  assert (Em' : m ++ d = P ++ (B ++ d)).
  { rewrite app_assoc, <- Em. reflexivity. }
  repeat split.
  - rewrite Em', absorb_app by exact Lp.
    f_equal. unfold P. apply eq_sym, absorb_firstn.
  - rewrite Em'.
    replace (64 * (n1 + n2)) with (64 * n2 + 64 * n1) by lia.
    rewrite <- (skipn_skipn (64 * n2) (64 * n1)).
    rewrite (skipn_app (64 * n1)), Lp, Nat.sub_diag, skipn_O.
    rewrite (skipn_all2 P) by lia. reflexivity.
  - rewrite length_app. reflexivity.
Qed.

Lemma fed_digest (h : hasher) (m : list byte) :
  fed h m -> digest h = sha256 m.
Proof.
  intros (Hc & Hb & Hl).
  destruct (split_blocks m) as (Em & Lp & Lb).
  set (n1 := length m / 64) in *.
  set (P := firstn (64 * n1) m) in *.
  set (B := skipn (64 * n1) m) in *.
  unfold digest, sha256, pad. rewrite Hb, Hc, Hl. fold B. f_equal.
  set (T := B ++ padding (length m)).
  assert (Em' : m ++ padding (length m) = P ++ T).
  { unfold T. rewrite app_assoc, <- Em. reflexivity. }
  assert (Hn : length (m ++ padding (length m)) / 64 = n1 + length T / 64).
  { unfold T. rewrite !length_app, Lb. apply div_blocks. }
  rewrite Hn, Em', absorb_app by exact Lp.
  f_equal. unfold P. apply eq_sym, absorb_firstn.
Qed.

(** Feeding chunks one [update] at a time is feeding their concatenation. *)
Lemma fed_fold_update (chunks : list (list byte)) : forall h m,
  fed h m -> fed (fold_left update chunks h) (m ++ concat chunks).
Proof.
  induction chunks as [|d ds IH]; intros h m Hf; cbn [fold_left concat].
  - rewrite app_nil_r. exact Hf.
  - rewrite app_assoc. apply IH, fed_update, Hf.
Qed.

Lemma hexdigest_fed (h : hasher) (m : list byte) :
  fed h m -> hexdigest h = hex (sha256 m).
Proof. intros Hf. unfold hexdigest. rewrite (fed_digest h m Hf). reflexivity. Qed.

(** *** Shape of a hex digest *)

Lemma hex_length (bs : list byte) : String.length (hex bs) = 2 * length bs.
Proof. induction bs as [|b bs IH]; cbn [hex String.length length]; lia. Qed.

Lemma hex_lower (bs : list byte) : all_chars is_lower_hex (hex bs) = true.
Proof.
  induction bs as [|b bs IH]; [reflexivity|].
  cbn [hex all_chars]. rewrite IH.
  destruct b; reflexivity.
Qed.

Lemma digest_bytes_length (c : chain) : length (digest_bytes c) = 32.
Proof. reflexivity. Qed.

Lemma hexdigest_length (h : hasher) : String.length (hexdigest h) = 64.
Proof. unfold hexdigest, digest. rewrite hex_length, digest_bytes_length. reflexivity. Qed.

Lemma hexdigest_lower (h : hasher) : all_chars is_lower_hex (hexdigest h) = true.
Proof. apply hex_lower. Qed.

End SHA256Facts.

(* ------------------------------------------------------------------ *)
(** ** Encoding of ASCII text *)
(* ------------------------------------------------------------------ *)

Module Utf8Facts.
Import Utf8.

Lemma encode_char_ascii (c : ascii) :
  (N_of_ascii c <? 128)%N = true ->
  encode_char (N_of_ascii c) = Some [byte_of_ascii c].
Proof.
  destruct c as [b0 b1 b2 b3 b4 b5 b6 b7].
  destruct b7; [destruct b0, b1, b2, b3, b4, b5, b6; discriminate|].
  intros _. destruct b0, b1, b2, b3, b4, b5, b6; reflexivity.
Qed.

(** ASCII text encodes to itself. *)
Lemma encode_ascii (s : string) :
  is_ascii s = true -> encode (of_string s) = Some (bytes_of_string s).
Proof.
  unfold is_ascii, of_string, bytes_of_string, list_byte_of_string.
  induction (list_ascii_of_string s) as [|c l IH]; [reflexivity|].
  cbn [forallb map encode]. intros H.
  apply andb_true_iff in H as [Hc Hl].
  rewrite (encode_char_ascii c Hc), (IH Hl). reflexivity.
Qed.

Example encode_latin : encode [233%N] = Some [xc3; xa9].
Proof. reflexivity. Qed.

Example encode_euro : encode [8364%N] = Some [xe2; x82; xac].
Proof. reflexivity. Qed.

Example encode_astral : encode [128512%N] = Some [xf0; x9f; x98; x80].
Proof. reflexivity. Qed.

Example encode_surrogate : encode [97%N; 55357%N] = None.
Proof. reflexivity. Qed.

End Utf8Facts.

Section CollectorExamples.
Import Collector Utf8.

Definition abc_world : world :=
  World 0 0 [] [of_string "a"; of_string "b"; of_string "c"].

Example collector_abc :
  option_map (fun r => fst (fst r)) (entropy_collector 60 [] 5000 abc_world) =
  Some ["ba7816bf8f01cfea414140de5dae2223b00361a396177a9cb410ff61f20015ad"%string].
Proof. vm_compute. reflexivity. Qed.

End CollectorExamples.

(* ------------------------------------------------------------------ *)
(** ** What the collector hashes *)
(* ------------------------------------------------------------------ *)

Module CollectorFacts.
Import Collector Utf8 SHA256 SHA256Facts.

(** The byte strings that reach [hasher.update]: the encodings of the
    dequeued samples, without those whose encoding raised. *)
Definition encoded (chunks : list pystr) : list (list byte) :=
  flat_map (fun s => match encode s with Some b => [b] | None => [] end) chunks.

Lemma dequeued_app (a b : list turn) : dequeued (a ++ b) = dequeued a ++ dequeued b.
Proof. apply flat_map_app. Qed.

Lemma encoded_app (a b : list pystr) : encoded (a ++ b) = encoded a ++ encoded b.
Proof. apply flat_map_app. Qed.

Lemma encoded_all (chunks : list pystr) (payloads : list (list byte)) :
  map encode chunks = map Some payloads -> encoded chunks = payloads.
Proof.
  revert payloads. induction chunks as [|s l IH]; intros [|p ps] H; try discriminate.
  - reflexivity.
  - cbn [map] in H. injection H as Hs Hl.
    cbn [encoded flat_map]. rewrite Hs. cbn [app]. f_equal. apply IH, Hl.
Qed.

Section AnyEnvironment.
Context {W : Type} {E : Env W}.

(** The loop only appends to the log, and the hasher it returns has been fed
    the encodings of the samples it dequeued, in dequeue order. *)
Lemma collector_loop_fed (fuel : nat) : forall end_time h log w h' log' w' m,
  fed h m ->
  collector_loop fuel end_time h log w = Some (h', log', w') ->
  exists new, log' = log ++ new /\
              fed h' (m ++ concat (encoded (dequeued new))).
Proof.
  induction fuel as [|fuel IH]; intros end_time h log w h' log' w' m Hf Hrun;
    [discriminate|].
  cbn [collector_loop] in Hrun.
  destruct (time_time w) as [t w1].
  set (lt := t <? end_time) in *.
  assert (Hgo : forall w2 : W,
     (let (r, w3) := queue_get w2 in
      match r with
      | Some c => match encode c with
                  | Some bytes => collector_loop fuel end_time (update h bytes)
                                    (log ++ [Turn (negb lt) r]) w3
                  | None => collector_loop fuel end_time h (log ++ [Turn (negb lt) r]) w3
                  end
      | None => collector_loop fuel end_time h (log ++ [Turn (negb lt) r]) w3
      end) = Some (h', log', w') ->
     exists new, log' = log ++ new /\ fed h' (m ++ concat (encoded (dequeued new)))).
  { intros w2 Hk. destruct (queue_get w2) as [[c|] w3].
    - destruct (encode c) as [bytes|] eqn:Ec.
      + apply (IH _ _ _ _ _ _ _ (m ++ bytes) (fed_update _ _ _ Hf)) in Hk.
        destruct Hk as (new & -> & Hfed).
        exists (Turn (negb lt) (Some c) :: new). split.
        * rewrite <- app_assoc. reflexivity.
        * cbn [dequeued flat_map got app]. fold (dequeued new).
          cbn [encoded flat_map app]. rewrite Ec. cbn [app concat].
          fold (encoded (dequeued new)).
          rewrite app_assoc. exact Hfed.
      + apply (IH _ _ _ _ _ _ _ m Hf) in Hk.
        destruct Hk as (new & -> & Hfed).
        exists (Turn (negb lt) (Some c) :: new). split.
        * rewrite <- app_assoc. reflexivity.
        * cbn [dequeued flat_map got app]. fold (dequeued new).
          cbn [encoded flat_map app]. rewrite Ec. cbn [app].
          exact Hfed.
    - apply (IH _ _ _ _ _ _ _ m Hf) in Hk.
      destruct Hk as (new & -> & Hfed).
      exists (Turn (negb lt) None :: new). split.
      * rewrite <- app_assoc. reflexivity.
      * exact Hfed. }
  destruct lt.
  - exact (Hgo w1 Hrun).
  - destruct (queue_empty w1) as [e w2]. destruct e; cbn [negb] in Hrun.
    + injection Hrun as -> -> ->. exists []. rewrite !app_nil_r. auto.
    + exact (Hgo w2 Hrun).
Qed.

(** The digest appended to [final_result] is the SHA-256 of the concatenated
    encodings of the dequeued samples. *)
Lemma entropy_collector_digest fuel final_result run_time (w : W) res log w' :
  entropy_collector fuel final_result run_time w = Some (res, log, w') ->
  res = final_result ++ [hex (sha256 (concat (encoded (dequeued log))))].
Proof.
  unfold entropy_collector. destruct (time_time w) as [t0 w1].
  destruct (collector_loop fuel (t0 + run_time) new [] w1)
    as [[[h' log'] w2]|] eqn:Hrun; [|discriminate].
  intros H. injection H as <- <- <-.
  destruct (collector_loop_fed _ _ _ _ _ _ _ _ [] fed_new Hrun) as (l & -> & Hfed).
  cbn [app] in *. rewrite (hexdigest_fed _ _ Hfed). reflexivity.
Qed.

End AnyEnvironment.

End CollectorFacts.

(* ------------------------------------------------------------------ *)
(** ** Termination of the collector in the discrete-event world *)
(* ------------------------------------------------------------------ *)

Module WorldFacts.
Import Collector Utf8 SHA256 SHA256Facts CollectorFacts.

Lemma deliver_items t p : forall q p' q',
  deliver t p q = (p', q') ->
  (length p' + length q' = length p + length q)%nat.
Proof.
  induction p as [|[ts s] p IH]; intros q p' q' H; cbn [deliver] in H.
  - injection H as <- <-. reflexivity.
  - destruct (ts <=? t).
    + apply IH in H. rewrite length_app in H. cbn [length] in *. lia.
    + injection H as <- <-. reflexivity.
Qed.

(** After delivery the next pending [put] lies in the future, so delivering
    again changes nothing. *)
Lemma deliver_head t p : forall q p' q',
  deliver t p q = (p', q') ->
  match p' with (ts, _) :: _ => t < ts | [] => True end.
Proof.
  induction p as [|[ts s] p IH]; intros q p' q' H; cbn [deliver] in H.
  - injection H as <- <-. exact I.
  - destruct (ts <=? t) eqn:C.
    + exact (IH _ _ _ H).
    + injection H as <- <-. apply Z.leb_gt, C.
Qed.

Lemma deliver_idem t p q p' q' :
  deliver t p q = (p', q') -> deliver t p' q' = (p', q').
Proof.
  intros H. apply deliver_head in H.
  destruct p' as [|[ts s] p'']; [reflexivity|].
  cbn [deliver]. apply Z.leb_gt in H. rewrite H. reflexivity.
Qed.

Lemma arrive_idem w : arrive (arrive w) = arrive w.
Proof.
  unfold arrive. destruct (deliver (now w) (pending w) (fifo w)) as [p q] eqn:D.
  cbn [now pending fifo tick]. rewrite (deliver_idem _ _ _ _ _ D). reflexivity.
Qed.

Lemma arrive_now w : now (arrive w) = now w.
Proof. unfold arrive. destruct (deliver _ _ _). reflexivity. Qed.

Lemma arrive_tick w : tick (arrive w) = tick w.
Proof. unfold arrive. destruct (deliver _ _ _). reflexivity. Qed.

Lemma arrive_items w : items (arrive w) = items w.
Proof.
  unfold arrive, items. destruct (deliver (now w) (pending w) (fifo w)) as [p q] eqn:D.
  cbn [pending fifo]. exact (deliver_items _ _ _ _ _ D).
Qed.

Lemma arrive_head w :
  match pending (arrive w) with (ts, _) :: _ => now w < ts | [] => True end.
Proof.
  unfold arrive. destruct (deliver (now w) (pending w) (fifo w)) as [p q] eqn:D.
  cbn [pending]. exact (deliver_head _ _ _ _ _ D).
Qed.

(** A [get] either hands over a sample, and time does not go back, or times
    out on an empty queue a full timeout later. *)
Lemma world_get_cases w :
  (exists s w3, world_get w = (Some s, w3) /\
                S (items w3) = items w /\ now w <= now w3) \/
  (exists w3, world_get w = (None, w3) /\ items w3 = items w /\
              now w3 = now w + timeout /\ fifo (arrive w) = []).
Proof.
  unfold world_get.
  pose proof (arrive_items w) as Hi. pose proof (arrive_now w) as Hn.
  pose proof (arrive_head w) as Hh.
  pose proof (N2Z.is_nonneg (tick (arrive w))) as Ht.
  unfold items in *.
  destruct (fifo (arrive w)) as [|s q].
  - destruct (pending (arrive w)) as [|[ts s] p].
    + right. eexists. split; [reflexivity|]. cbn [pending fifo now length] in *.
      repeat split; lia.
    + destruct (ts <=? now (arrive w) + timeout).
      * left. do 2 eexists. split; [reflexivity|].
        cbn [pending fifo now length] in *. split; lia.
      * right. eexists. split; [reflexivity|]. cbn [pending fifo now length] in *.
        repeat split; lia.
  - left. do 2 eexists. split; [reflexivity|].
    cbn [pending fifo now length] in *. split; lia.
Qed.

(** On a queue that [empty] has just reported non-empty, [get] succeeds. *)
Lemma world_get_after_empty w :
  fifo (arrive w) <> [] ->
  exists s w3, world_get (arrive w) = (Some s, w3) /\
               S (items w3) = items w /\ now w <= now w3.
Proof.
  intros Hne.
  destruct (world_get_cases (arrive w)) as [(s & w3 & H & Hi & Hn)|(w3 & _ & _ & _ & Hq)].
  - exists s, w3. rewrite arrive_items in Hi. rewrite arrive_now in Hn. auto.
  - rewrite arrive_idem in Hq. contradiction.
Qed.

Lemma slack_mono end_time w w3 : now w <= now w3 -> (slack end_time w3 <= slack end_time w)%nat.
Proof.
  intros H. unfold slack, timeout.
  Z.to_euclidean_division_equations. lia.
Qed.

Lemma slack_timeout end_time w w3 :
  now w < end_time -> now w3 = now w + timeout ->
  S (slack end_time w3) = slack end_time w.
Proof.
  intros H1 H2. unfold slack, timeout in *. rewrite H2.
  Z.to_euclidean_division_equations. lia.
Qed.

Lemma slack_late end_time w : end_time <= now w -> slack end_time w = 0%nat.
Proof.
  intros H. unfold slack, timeout. Z.to_euclidean_division_equations. lia.
Qed.

Lemma late_pops_cons t l :
  late_pops (t :: l) =
  ((if late t && match got t with Some _ => true | None => false end then 1 else 0)
   + late_pops l)%nat.
Proof. unfold late_pops. cbn [filter]. destruct (late t && _); reflexivity. Qed.

Lemma late_timeouts_cons t l :
  late_timeouts (t :: l) =
  ((if late t && match got t with Some _ => false | None => true end then 1 else 0)
   + late_timeouts l)%nat.
Proof. unfold late_timeouts. cbn [filter]. destruct (late t && _); reflexivity. Qed.

(** What a finished run of the loop looks like in the world. *)
Record finished (end_time : Z) (w : world) (new : list turn) (w' : world) : Prop := {
  fin_pops : (length (dequeued new) + items w' = items w)%nat;
  fin_late_pops : (late_pops new <= items w)%nat;
  fin_late_timeouts : late_timeouts new = 0%nat;
  fin_turns : (length new <= items w + slack end_time w)%nat;
  fin_deadline : end_time <= now w';
  fin_empty : fifo w' = []
}.

Lemma finished_pop end_time w s w3 new w' l :
  S (items w3) = items w -> now w <= now w3 ->
  finished end_time w3 new w' ->
  finished end_time w (Turn l (Some s) :: new) w'.
Proof.
  intros Hi Hn [F1 F2 F3 F4 F5 F6].
  pose proof (slack_mono end_time w w3 Hn).
  split; [| | | |exact F5|exact F6].
  - cbn [dequeued flat_map got app length]. fold (dequeued new). lia.
  - rewrite late_pops_cons. cbn [late got]. destruct l; cbn [andb]; lia.
  - rewrite late_timeouts_cons. cbn [late got]. rewrite andb_false_r. exact F3.
  - cbn [length]. lia.
Qed.

Lemma finished_timeout end_time w w3 new w' :
  items w3 = items w -> now w < end_time -> now w3 = now w + timeout ->
  finished end_time w3 new w' ->
  finished end_time w (Turn false None :: new) w'.
Proof.
  intros Hi Hc Hn [F1 F2 F3 F4 F5 F6].
  pose proof (slack_timeout end_time w w3 Hc Hn).
  split; [| | | |exact F5|exact F6].
  - cbn [dequeued flat_map got app]. fold (dequeued new). lia.
  - rewrite late_pops_cons. cbn [late andb]. lia.
  - rewrite late_timeouts_cons. cbn [late andb]. exact F3.
  - cbn [length]. lia.
Qed.

(** The loop ends within [items w + slack end_time w] turns, plus the turn
    that finds the deadline passed and the queue empty. *)
Lemma world_loop_terminates (fuel : nat) : forall end_time h log w,
  (items w + slack end_time w < fuel)%nat ->
  exists h' new w',
    collector_loop fuel end_time h log w = Some (h', log ++ new, w') /\
    finished end_time w new w'.
Proof.
  induction fuel as [|fuel IH]; intros end_time h log w Hm; [lia|].
  cbn [collector_loop time_time world_env world_time].
  destruct (now w <? end_time) eqn:C.
  - apply Z.ltb_lt in C. cbn [queue_get world_env negb].
    destruct (world_get_cases w) as [(s & w3 & G & Hi & Hn)|(w3 & G & Hi & Hn & _)];
      rewrite G.
    + pose proof (slack_mono end_time w w3 Hn) as Hs.
      assert (Hm3 : (items w3 + slack end_time w3 < fuel)%nat) by lia.
      destruct (encode s) as [bytes|];
        [destruct (IH end_time (update h bytes) (log ++ [Turn false (Some s)]) w3 Hm3)
           as (h' & new & w' & Hrun & Hfin)
        |destruct (IH end_time h (log ++ [Turn false (Some s)]) w3 Hm3)
           as (h' & new & w' & Hrun & Hfin)];
        exists h', (Turn false (Some s) :: new), w';
        (split; [rewrite Hrun, <- app_assoc; reflexivity
                |exact (finished_pop _ _ _ _ _ _ _ Hi Hn Hfin)]).
    + pose proof (slack_timeout end_time w w3 C Hn) as Hs.
      assert (Hm3 : (items w3 + slack end_time w3 < fuel)%nat) by lia.
      destruct (IH end_time h (log ++ [Turn false None]) w3 Hm3)
        as (h' & new & w' & Hrun & Hfin).
      exists h', (Turn false None :: new), w'.
      split; [rewrite Hrun, <- app_assoc; reflexivity
             |exact (finished_timeout _ _ _ _ _ Hi C Hn Hfin)].
  - apply Z.ltb_ge in C. cbn [queue_empty world_env world_empty negb].
    destruct (fifo (arrive w)) as [|s0 q0] eqn:F; cbn [negb].
    + exists h, [], (arrive w). rewrite app_nil_r. split; [reflexivity|].
      split; cbn [dequeued flat_map length late_pops late_timeouts filter];
        rewrite ?arrive_items, ?arrive_now; auto; lia.
    + cbn [queue_get world_env].
      destruct (world_get_after_empty w) as (s & w3 & G & Hi & Hn);
        [rewrite F; discriminate|].
      rewrite G.
      pose proof (slack_mono end_time w w3 Hn) as Hs.
      assert (Hm3 : (items w3 + slack end_time w3 < fuel)%nat) by lia.
      destruct (encode s) as [bytes|];
        [destruct (IH end_time (update h bytes) (log ++ [Turn true (Some s)]) w3 Hm3)
           as (h' & new & w' & Hrun & Hfin)
        |destruct (IH end_time h (log ++ [Turn true (Some s)]) w3 Hm3)
           as (h' & new & w' & Hrun & Hfin)];
        exists h', (Turn true (Some s) :: new), w';
        (split; [rewrite Hrun, <- app_assoc; reflexivity
                |exact (finished_pop _ _ _ _ _ _ _ Hi Hn Hfin)]).
Qed.

End WorldFacts.

Section GeneratorExamples.
Import Generators.
Local Open Scope float_scope.

Definition demo_oracle : oracle :=
  Oracle (fun k => match k with 0%nat => 0.5 | 1%nat => 0.25 | _ => 0.125 end)
         (fun k => match k with 7%nat => x07 | 15%nat => xff | _ => x00 end)
         (fun k => 1000 + Z.of_nat k)%Z.

Example logistic_demo :
  puts (run (logistic_map_thread PyNone 0 2) demo_oracle) =
  [Utf8.of_string "3.850000_0.721875_1000";
   Utf8.of_string "3.850000_0.772970_1001"].
Proof. vm_compute. reflexivity. Qed.

Example lorenz_demo :
  puts (run (lorenz_system_thread PyNone 0 1) demo_oracle) =
  [Utf8.of_string "10.000000_27.500000_2.562500_0.125000_0.157969_0.121953_1000"].
Proof. vm_compute. reflexivity. Qed.

Example random_walk_demo :
  puts (run (random_walk_thread PyNone 0 2) demo_oracle) =
  [Utf8.of_string "-0.043000_7_1000"; Utf8.of_string "-0.038000_255_1001"].
Proof. vm_compute. reflexivity. Qed.

End GeneratorExamples.

(* ------------------------------------------------------------------ *)
(** ** What the generator threads compute *)
(* ------------------------------------------------------------------ *)

Module GeneratorFacts.
Import Generators Utf8.
Local Open Scope float_scope.

(** Stepping through the state-passing code. *)
Ltac gen_step :=
  unfold bind, ret, random_uniform, random_random, os_urandom, time_sleep,
    time_perf_counter_ns, queue_put, emit;
  cbn [fst snd n_rand n_bytes n_clock effects].

Lemma seq_S_shift (n : nat) : seq 0 (S n) = 0%nat :: map S (seq 0 n).
Proof. cbn [seq]. rewrite seq_shift. reflexivity. Qed.

Lemma flat_map_seq_S {A} (f : nat -> list A) (n : nat) :
  flat_map f (seq 0 (S n)) = f 0%nat ++ flat_map (fun k => f (S k)) (seq 0 n).
Proof.
  rewrite seq_S_shift. cbn [flat_map]. f_equal.
  induction (seq 0 n) as [|a l IH]; [reflexivity|].
  cbn [map flat_map]. rewrite IH. reflexivity.
Qed.

(** *** Logistic map *)

(** The map of the claim: [x <- r * x * (1 - x)]. *)
Definition logistic_next (r x : float) : float := r * x * (1 - x).

Fixpoint logistic_orbit (r x0 : float) (k : nat) : float :=
  match k with
  | O => x0
  | S k' => logistic_next r (logistic_orbit r x0 k')
  end.

Lemma logistic_orbit_shift r x k :
  logistic_orbit r (logistic_next r x) k = logistic_orbit r x (S k).
Proof.
  induction k as [|k IH]; [reflexivity|].
  cbn [logistic_orbit] in *. rewrite IH. reflexivity.
Qed.

Definition logistic_sample (r x : float) (t : Z) : pystr :=
  of_string (fmt6 r ++ "_" ++ fmt6 x ++ "_" ++ str_of_Z t)%string.

(** The effects of iteration [k] (counted from 0) of a loop entered with the
    counters [i] and [j]. *)
Definition logistic_turn (queue : nat) (r x0 : float) (o : oracle)
    (i j k : nat) : list effect :=
  [Sleep (rand o (i + k) / 10000.0);
   Put queue (logistic_sample r (logistic_orbit r x0 (S k)) (perf_counter o (j + k)))].

Lemma logistic_loop_run (steps : nat) : forall queue r x o s,
  logistic_loop steps queue r x o s =
  (tt, GState (n_rand s + steps) (n_bytes s) (n_clock s + steps)
         (effects s ++
          flat_map (logistic_turn queue r x o (n_rand s) (n_clock s)) (seq 0 steps))).
Proof.
  induction steps as [|steps IH]; intros queue r x o s.
  - destruct s. cbn. rewrite !Nat.add_0_r, app_nil_r. reflexivity.
  - cbn [logistic_loop]. gen_step. rewrite IH. cbn [n_rand n_bytes n_clock effects].
    rewrite flat_map_seq_S. f_equal. f_equal; try lia.
    rewrite <- !app_assoc. f_equal.
    unfold logistic_turn at 2. cbn [app]. rewrite !Nat.add_0_r.
    do 2 f_equal.
    apply flat_map_ext. intros k. unfold logistic_turn.
    fold (logistic_next r x). rewrite logistic_orbit_shift.
    rewrite !Nat.add_succ_r. reflexivity.
Qed.

(** *** Lorenz system *)

(** One forward-Euler step of size [dt]; the three increments are computed
    from the point before the step. *)
Definition lorenz_next (sigma rho beta : float) (p : float * float * float)
  : float * float * float :=
  let '(x, y, z) := p in
  (x + sigma * (y - x) * dt,
   y + (x * (rho - z) - y) * dt,
   z + (x * y - beta * z) * dt).

Fixpoint lorenz_orbit (sigma rho beta : float) (p0 : float * float * float)
    (k : nat) : float * float * float :=
  match k with
  | O => p0
  | S k' => lorenz_next sigma rho beta (lorenz_orbit sigma rho beta p0 k')
  end.

Lemma lorenz_orbit_shift sigma rho beta p k :
  lorenz_orbit sigma rho beta (lorenz_next sigma rho beta p) k =
  lorenz_orbit sigma rho beta p (S k).
Proof.
  induction k as [|k IH]; [reflexivity|].
  cbn [lorenz_orbit] in *. rewrite IH. reflexivity.
Qed.

Definition lorenz_sample (sigma rho beta : float) (p : float * float * float)
    (t : Z) : pystr :=
  let '(x, y, z) := p in
  of_string (fmt6 sigma ++ "_" ++ fmt6 rho ++ "_" ++ fmt6 beta ++ "_" ++
             fmt6 x ++ "_" ++ fmt6 y ++ "_" ++ fmt6 z ++ "_" ++ str_of_Z t)%string.

Definition lorenz_turn (queue : nat) (sigma rho beta : float)
    (p0 : float * float * float) (o : oracle) (i j k : nat) : list effect :=
  [Sleep (rand o (i + k) / 10000.0);
   Put queue (lorenz_sample sigma rho beta
                (lorenz_orbit sigma rho beta p0 (S k)) (perf_counter o (j + k)))].

Lemma lorenz_loop_run (steps : nat) : forall queue sigma rho beta x y z o s,
  lorenz_loop steps queue sigma rho beta x y z o s =
  (tt, GState (n_rand s + steps) (n_bytes s) (n_clock s + steps)
         (effects s ++
          flat_map (lorenz_turn queue sigma rho beta (x, y, z) o (n_rand s) (n_clock s))
                   (seq 0 steps))).
Proof.
  induction steps as [|steps IH]; intros queue sigma rho beta x y z o s.
  - destruct s. cbn. rewrite !Nat.add_0_r, app_nil_r. reflexivity.
  - cbn [lorenz_loop]. gen_step. rewrite IH. cbn [n_rand n_bytes n_clock effects].
    rewrite flat_map_seq_S. f_equal. f_equal; try lia.
    rewrite <- !app_assoc. f_equal.
    unfold lorenz_turn at 2. cbn [app]. rewrite !Nat.add_0_r.
    do 2 f_equal.
    apply flat_map_ext. intros k. unfold lorenz_turn.
    change (x + sigma * (y - x) * dt, y + (x * (rho - z) - y) * dt,
            z + (x * y - beta * z) * dt)
      with (lorenz_next sigma rho beta (x, y, z)).
    rewrite lorenz_orbit_shift, !Nat.add_succ_r. reflexivity.
Qed.

(** *** Random walk *)

(** The eight bytes read by iteration [k] when the loop was entered after [b]
    bytes, as an unsigned big-endian integer. *)
Definition walk_value (o : oracle) (b k : nat) : Z :=
  int_from_bytes (map (os_random o) (seq (b + 8 * k) 8)).

Definition walk_shift (o : oracle) (b k : nat) : Z :=
  (walk_value o b k mod 100 - 50)%Z.

Fixpoint walk_position (o : oracle) (b : nat) (p0 : float) (k : nat) : float :=
  match k with
  | O => p0
  | S k' => walk_position o b p0 k' + float_of_Z (walk_shift o b k') * 0.001
  end.

Lemma walk_shift_shift o b k : walk_shift o (b + 8) k = walk_shift o b (S k).
Proof.
  unfold walk_shift, walk_value.
  replace (b + 8 + 8 * k)%nat with (b + 8 * S k)%nat by lia. reflexivity.
Qed.

Lemma walk_position_shift o b p k :
  walk_position o (b + 8) (p + float_of_Z (walk_shift o b 0) * 0.001) k =
  walk_position o b p (S k).
Proof.
  induction k as [|k IH]; [reflexivity|].
  cbn [walk_position] in *. rewrite IH, walk_shift_shift. reflexivity.
Qed.

Definition walk_sample (position : float) (value t : Z) : pystr :=
  of_string (fmt6 position ++ "_" ++ str_of_Z value ++ "_" ++ str_of_Z t)%string.

Definition walk_turn (queue : nat) (p0 : float) (o : oracle)
    (i b j k : nat) : list effect :=
  [Sleep (rand o (i + k) / 10000.0);
   Put queue (walk_sample (walk_position o b p0 (S k)) (walk_value o b k)
                (perf_counter o (j + k)))].

Lemma random_walk_loop_run (steps : nat) : forall queue p o s,
  random_walk_loop steps queue p o s =
  (tt, GState (n_rand s + steps) (n_bytes s + 8 * steps) (n_clock s + steps)
         (effects s ++
          flat_map (walk_turn queue p o (n_rand s) (n_bytes s) (n_clock s))
                   (seq 0 steps))).
Proof.
  induction steps as [|steps IH]; intros queue p o s.
  - destruct s. cbn. rewrite !Nat.add_0_r, app_nil_r. reflexivity.
  - cbn [random_walk_loop]. unfold random_walk_step. gen_step. rewrite IH.
    cbn [n_rand n_bytes n_clock effects].
    assert (E0 : int_from_bytes (map (os_random o) (seq (n_bytes s) 8)) =
                 walk_value o (n_bytes s) 0).
    { unfold walk_value. do 3 f_equal. lia. }
    rewrite !E0. fold (walk_shift o (n_bytes s) 0).
    rewrite flat_map_seq_S. f_equal. f_equal; try lia.
    rewrite <- !app_assoc. f_equal.
    unfold walk_turn at 2. cbn [app walk_position]. rewrite !Nat.add_0_r.
    do 2 f_equal.
    apply flat_map_ext. intros k. unfold walk_turn.
    rewrite walk_position_shift.
    unfold walk_value.
    replace (n_bytes s + 8 + 8 * k)%nat with (n_bytes s + 8 * S k)%nat by lia.
    rewrite !Nat.add_succ_r. reflexivity.
Qed.

(** *** The threads as a whole *)

Definition logistic_r (o : oracle) : float := 3.7 + (4.0 - 3.7) * rand o 0.
Definition logistic_x0 (o : oracle) : float := rand o 1.

Lemma logistic_init_run o :
  logistic_init o start = ((logistic_r o, logistic_x0 o), GState 2 0 0 []).
Proof. reflexivity. Qed.

Lemma logistic_map_thread_run entropy_pool queue steps o :
  run (logistic_map_thread entropy_pool queue steps) o =
  flat_map (logistic_turn queue (logistic_r o) (logistic_x0 o) o 2 0) (seq 0 (Z.to_nat steps)).
Proof.
  unfold run, logistic_map_thread, bind. rewrite logistic_init_run.
  cbn [fst snd]. rewrite logistic_loop_run. reflexivity.
Qed.

Definition lorenz_sigma (o : oracle) : float := 9.0 + (11.0 - 9.0) * rand o 0.
Definition lorenz_rho (o : oracle) : float := 27.0 + (29.0 - 27.0) * rand o 1.
Definition lorenz_beta (o : oracle) : float := 2.5 + (3.0 - 2.5) * rand o 2.
Definition lorenz_p0 (o : oracle) : float * float * float :=
  (rand o 3, rand o 4, rand o 5).

Lemma lorenz_init_run o :
  lorenz_init o start =
  (LorenzStart (lorenz_sigma o) (lorenz_rho o) (lorenz_beta o)
               (rand o 3) (rand o 4) (rand o 5),
   GState 6 0 0 []).
Proof. reflexivity. Qed.

Lemma lorenz_system_thread_run entropy_pool queue steps o :
  run (lorenz_system_thread entropy_pool queue steps) o =
  flat_map (lorenz_turn queue (lorenz_sigma o) (lorenz_rho o) (lorenz_beta o)
              (lorenz_p0 o) o 6 0) (seq 0 (Z.to_nat steps)).
Proof.
  unfold run, lorenz_system_thread, bind. rewrite lorenz_init_run.
  cbn [l_sigma l_rho l_beta l_x l_y l_z]. rewrite lorenz_loop_run. reflexivity.
Qed.

Lemma random_walk_thread_run entropy_pool queue steps o :
  run (random_walk_thread entropy_pool queue steps) o =
  flat_map (walk_turn queue 0.0 o 0 0 0) (seq 0 (Z.to_nat steps)).
Proof.
  unfold run, random_walk_thread. rewrite random_walk_loop_run. reflexivity.
Qed.

(** Every turn of every generator puts exactly one item, on the queue it was
    given. *)
Lemma sends_one_per_turn (turn : nat -> list effect) (item : nat -> pystr)
    (queue : nat) (l : list nat) :
  (forall k, sends (turn k) = [(queue, item k)]) ->
  sends (flat_map turn l) = map (fun k => (queue, item k)) l.
Proof.
  intros H. induction l as [|k l IH]; [reflexivity|].
  cbn [flat_map map]. unfold sends in *. rewrite flat_map_app, IH, H. reflexivity.
Qed.

Lemma logistic_sends entropy_pool queue steps o :
  sends (run (logistic_map_thread entropy_pool queue steps) o) =
  map (fun k => (queue, logistic_sample (logistic_r o)
                          (logistic_orbit (logistic_r o) (logistic_x0 o) (S k))
                          (perf_counter o k)))
      (seq 0 (Z.to_nat steps)).
Proof.
  rewrite logistic_map_thread_run.
  apply (sends_one_per_turn _ (fun k => logistic_sample _ _ (perf_counter o k))).
  reflexivity.
Qed.

Lemma lorenz_sends entropy_pool queue steps o :
  sends (run (lorenz_system_thread entropy_pool queue steps) o) =
  map (fun k => (queue, lorenz_sample (lorenz_sigma o) (lorenz_rho o) (lorenz_beta o)
                          (lorenz_orbit (lorenz_sigma o) (lorenz_rho o) (lorenz_beta o)
                             (lorenz_p0 o) (S k))
                          (perf_counter o k)))
      (seq 0 (Z.to_nat steps)).
Proof.
  rewrite lorenz_system_thread_run.
  apply (sends_one_per_turn _ (fun k => lorenz_sample _ _ _ _ (perf_counter o k))).
  reflexivity.
Qed.

Lemma random_walk_sends entropy_pool queue steps o :
  sends (run (random_walk_thread entropy_pool queue steps) o) =
  map (fun k => (queue, walk_sample (walk_position o 0 0.0 (S k)) (walk_value o 0 k)
                          (perf_counter o k)))
      (seq 0 (Z.to_nat steps)).
Proof.
  rewrite random_walk_thread_run.
  apply (sends_one_per_turn _ (fun k => walk_sample _ _ (perf_counter o k))).
  reflexivity.
Qed.

End GeneratorFacts.

(* ------------------------------------------------------------------ *)
(** ** The collector inside the system *)
(* ------------------------------------------------------------------ *)

Module OrchestratorFacts.
Import Collector Generators Utf8 Orchestrator.
Import SHA256 SHA256Facts CollectorFacts WorldFacts GeneratorFacts.

Lemma timed_length t gap k items : length (timed t gap k items) = length items.
Proof.
  revert t k. induction items as [|s l IH]; intros t k; [reflexivity|].
  cbn [timed length]. rewrite IH. reflexivity.
Qed.

Lemma merge_length (l1 : list arrival) : forall l2,
  length (merge l1 l2) = (length l1 + length l2)%nat.
Proof.
  induction l1 as [|a1 r1 IH1]; intros l2.
  - destruct l2; reflexivity.
  - induction l2 as [|a2 r2 IH2].
    + cbn [merge length]. lia.
    + cbn [merge]. destruct (fst a1 <=? fst a2).
      * cbn [length]. rewrite IH1. cbn [length]. lia.
      * cbn [length]. cbn [merge] in IH2. rewrite IH2. cbn [length]. lia.
Qed.

(** All [put]s of a list go to queue [q]. *)
Definition all_for (q : nat) (l : list arrival) : Prop :=
  Forall (fun a => fst (snd a) = q) l.

Lemma timed_all_for q t gap k items :
  Forall (fun s => fst s = q) items -> all_for q (timed t gap k items).
Proof.
  revert t k. induction items as [|s l IH]; intros t k H; [constructor|].
  inversion H as [|? ? Hs Hl]. cbn [timed].
  constructor; [exact Hs|]. apply IH. exact Hl.
Qed.

Lemma merge_all_for q (l1 : list arrival) : forall l2,
  all_for q l1 -> all_for q l2 -> all_for q (merge l1 l2).
Proof.
  induction l1 as [|a1 r1 IH1]; intros l2 H1 H2.
  - destruct l2; assumption.
  - induction l2 as [|a2 r2 IH2]; [assumption|].
    cbn [merge]. inversion H1 as [|? ? Ha1 Hr1]. inversion H2 as [|? ? Ha2 Hr2].
    destruct (fst a1 <=? fst a2).
    + constructor; [exact Ha1|]. apply IH1; assumption.
    + constructor; [exact Ha2|]. apply IH2. exact Hr2.
Qed.

Lemma for_queue_length q l : all_for q l -> length (for_queue q l) = length l.
Proof.
  induction 1 as [|a l Ha Hl IH]; [reflexivity|].
  cbn [for_queue flat_map]. rewrite Ha, Nat.eqb_refl. cbn [app length].
  f_equal. exact IH.
Qed.

(** Each generator puts exactly [steps] items, all on its queue. *)
Lemma body_sends f entropy_pool queue steps o :
  length (sends (run (body f entropy_pool queue steps) o)) = Z.to_nat steps /\
  Forall (fun s => fst s = queue) (sends (run (body f entropy_pool queue steps) o)).
Proof.
  destruct f; cbn [body];
    [rewrite logistic_sends | rewrite lorenz_sends | rewrite random_walk_sends];
    (split; [rewrite length_map, length_seq; reflexivity
            |apply Forall_map, Forall_forall; reflexivity]).
Qed.

(** Starting a thread changes the machine field by field. *)
Lemma thread_start_fields sys i t m :
  m_queues (thread_start sys i t m) = m_queues m /\
  m_started (thread_start sys i t m) = m_started m ++ [t] /\
  m_joined (thread_start sys i t m) = m_joined m /\
  m_final_result (thread_start sys i t m) = m_final_result m.
Proof. repeat split. Qed.

Lemma thread_start_generator_pending sys i f entropy_pool queue steps m :
  m_pending (thread_start sys i (Generator f entropy_pool queue steps) m) =
  merge (m_pending m)
        (timed (started_at sys i) (gaps sys i) 0
               (sends (run (body f entropy_pool queue steps) (oracles sys i)))).
Proof. reflexivity. Qed.

(** Starting the collector and joining it runs [entropy_collector] on the
    queue as the generators started so far fill it. *)
Lemma join_after_start sys fuel i queue run_time m :
  thread_join sys fuel (EntropyCollector queue run_time)
    (thread_start sys i (EntropyCollector queue run_time) m) =
  match entropy_collector fuel (m_final_result m) run_time
          (World (clock sys) (cpu sys) (for_queue queue (m_pending m)) []) with
  | Some (final_result, log, w') =>
      Some (Machine (m_queues m) (m_started m ++ [EntropyCollector queue run_time])
                    (m_joined m ++ [EntropyCollector queue run_time]) (m_pending m)
                    final_result log (Some w'))
  | None => None
  end.
Proof. reflexivity. Qed.

(** The machine once the three generators are started. *)
Definition generators_started (entropy_pool : pyobj) (sys : system) : machine :=
  thread_start sys 3 (Generator RandomWalk entropy_pool 0 10000)
    (thread_start sys 2 (Generator LorenzSystem entropy_pool 0 10000)
       (thread_start sys 1 (Generator LogisticMap entropy_pool 0 10000)
          (snd (queue_new boot)))).

Lemma generators_started_fields entropy_pool sys :
  m_queues (generators_started entropy_pool sys) = 1%nat /\
  m_started (generators_started entropy_pool sys) =
    [Generator LogisticMap entropy_pool 0 10000;
     Generator LorenzSystem entropy_pool 0 10000;
     Generator RandomWalk entropy_pool 0 10000] /\
  m_joined (generators_started entropy_pool sys) = [] /\
  m_final_result (generators_started entropy_pool sys) = [].
Proof.
  unfold generators_started.
  rewrite !(proj1 (thread_start_fields _ _ _ _)).
  rewrite !(proj1 (proj2 (thread_start_fields _ _ _ _))).
  rewrite !(proj1 (proj2 (proj2 (thread_start_fields _ _ _ _)))).
  rewrite !(proj2 (proj2 (proj2 (thread_start_fields _ _ _ _)))).
  repeat split.
Qed.

(** The [put]s scheduled by then: 10000 from each generator, all on the one
    queue. *)
Lemma generators_started_pending entropy_pool sys :
  all_for 0 (m_pending (generators_started entropy_pool sys)) /\
  length (m_pending (generators_started entropy_pool sys)) = Z.to_nat 30000.
Proof.
  unfold generators_started. rewrite !thread_start_generator_pending.
  change (m_pending (snd (queue_new boot))) with (@nil arrival).
  pose proof (body_sends LogisticMap entropy_pool 0 10000 (oracles sys 1)) as [L1 F1].
  pose proof (body_sends LorenzSystem entropy_pool 0 10000 (oracles sys 2)) as [L2 F2].
  pose proof (body_sends RandomWalk entropy_pool 0 10000 (oracles sys 3)) as [L3 F3].
  split.
  - apply merge_all_for; [apply merge_all_for; [apply merge_all_for|]|].
    + constructor.
    + apply timed_all_for. exact F1.
    + apply timed_all_for. exact F2.
    + apply timed_all_for. exact F3.
  - rewrite !merge_length, !timed_length, L1, L2, L3. cbn [length]. lia.
Qed.

(** The world the collector starts in. *)
Definition collector_world (entropy_pool : pyobj) (sys : system) : world :=
  World (clock sys) (cpu sys)
        (for_queue 0 (m_pending (generators_started entropy_pool sys))) [].

Lemma collector_world_items entropy_pool sys :
  items (collector_world entropy_pool sys) = Z.to_nat 30000.
Proof.
  destruct (generators_started_pending entropy_pool sys) as [F L].
  unfold items, collector_world. cbn [pending fifo length].
  rewrite (for_queue_length 0 _ F), L. lia.
Qed.

(** [run_with_pool] is the collector run in that world. *)
Lemma run_with_pool_unfold entropy_pool sys fuel total_time :
  run_with_pool entropy_pool sys fuel total_time =
  match entropy_collector fuel [] total_time (collector_world entropy_pool sys) with
  | Some (final_result, log, w') =>
      Some (match final_result with d :: _ => Some d | [] => None end,
            Machine 1
              [Generator LogisticMap entropy_pool 0 10000;
               Generator LorenzSystem entropy_pool 0 10000;
               Generator RandomWalk entropy_pool 0 10000;
               EntropyCollector 0 total_time]
              [EntropyCollector 0 total_time]
              (m_pending (generators_started entropy_pool sys))
              final_result log (Some w'))
  | None => None
  end.
Proof.
  unfold run_with_pool.
  change (queue_new boot) with (0%nat, snd (queue_new boot)). cbv iota beta.
  fold (generators_started entropy_pool sys).
  rewrite join_after_start.
  destruct (generators_started_fields entropy_pool sys) as (-> & -> & -> & ->).
  fold (collector_world entropy_pool sys).
  destruct (entropy_collector fuel [] total_time (collector_world entropy_pool sys))
    as [[[fr log] w']|]; reflexivity.
Qed.

Lemma run_chaotic_system_eq sys fuel total_time :
  run_chaotic_system sys fuel total_time = run_with_pool PyNone sys fuel total_time.
Proof. reflexivity. Qed.

(** In the world, [entropy_collector] returns, and its digest is the hash of
    what it dequeued. *)
Lemma world_collector_terminates fuel final_result run_time (w : world) :
  (items w + slack (now w + run_time) w < fuel)%nat ->
  exists log w',
    entropy_collector fuel final_result run_time w =
      Some (final_result ++ [hex (sha256 (concat (encoded (dequeued log))))], log, w') /\
    finished (now w + run_time) w log w'.
Proof.
  intros Hm.
  destruct (world_loop_terminates fuel (now w + run_time) new [] w Hm)
    as (h' & log & w' & Hrun & Hfin).
  exists log, w'. split; [|exact Hfin].
  assert (E : entropy_collector fuel final_result run_time w =
              Some (final_result ++ [hexdigest h'], log, w')).
  { unfold entropy_collector. cbn [time_time world_env world_time].
    rewrite Hrun. reflexivity. }
  pose proof (entropy_collector_digest _ _ _ _ _ _ _ E) as D.
  rewrite E, D. reflexivity.
Qed.

Lemma slack_start run_time (w : world) :
  slack (now w + run_time) w = Z.to_nat ((run_time + (timeout - 1)) / timeout).
Proof. unfold slack. do 2 f_equal. lia. Qed.

End OrchestratorFacts.

(* ------------------------------------------------------------------ *)
(** ** Particular worlds *)
(* ------------------------------------------------------------------ *)

Module Scenarios.
Import Collector Generators Utf8 Orchestrator.
Import SHA256 SHA256Facts CollectorFacts WorldFacts GeneratorFacts OrchestratorFacts.

(** *** A backlog: the deadline has passed and the queue holds [q] *)

Lemma late_turn_exit fuel end_time h log nw tk :
  end_time <= nw ->
  collector_loop (S fuel) end_time h log (World nw tk [] []) =
  Some (h, log, World nw tk [] []).
Proof.
  intros Hlate. cbn [collector_loop time_time world_env world_time now].
  rewrite (proj2 (Z.ltb_ge nw end_time) Hlate). reflexivity.
Qed.

Lemma late_turn_pop fuel end_time h log nw tk s q :
  end_time <= nw ->
  collector_loop (S fuel) end_time h log (World nw tk [] (s :: q)) =
  match encode s with
  | Some bytes =>
      collector_loop fuel end_time (update h bytes) (log ++ [Turn true (Some s)])
                     (World (nw + Z.of_N tk) tk [] q)
  | None =>
      collector_loop fuel end_time h (log ++ [Turn true (Some s)])
                     (World (nw + Z.of_N tk) tk [] q)
  end.
Proof.
  intros Hlate. cbn [collector_loop time_time world_env world_time now].
  rewrite (proj2 (Z.ltb_ge nw end_time) Hlate). reflexivity.
Qed.

Lemma early_turn_pop fuel end_time h log nw tk s q :
  nw < end_time ->
  collector_loop (S fuel) end_time h log (World nw tk [] (s :: q)) =
  match encode s with
  | Some bytes =>
      collector_loop fuel end_time (update h bytes) (log ++ [Turn false (Some s)])
                     (World (nw + Z.of_N tk) tk [] q)
  | None =>
      collector_loop fuel end_time h (log ++ [Turn false (Some s)])
                     (World (nw + Z.of_N tk) tk [] q)
  end.
Proof.
  intros Hearly. cbn [collector_loop time_time world_env world_time now].
  rewrite (proj2 (Z.ltb_lt nw end_time) Hearly). reflexivity.
Qed.

Lemma drain_backlog (q : list pystr) : forall fuel end_time h log nw tk,
  (length q < fuel)%nat ->
  end_time <= nw ->
  exists h' new w',
    collector_loop fuel end_time h log (World nw tk [] q) =
      Some (h', log ++ new, w') /\
    late_pops new = length q.
Proof.
  induction q as [|s q IH]; intros [|fuel] end_time h log nw tk Hfuel Hlate;
    cbn [length] in Hfuel; try lia.
  - rewrite late_turn_exit by exact Hlate.
    exists h, [], (World nw tk [] []). rewrite app_nil_r. split; reflexivity.
  - cbn [length]. rewrite late_turn_pop by exact Hlate.
    assert (Hlate' : end_time <= nw + Z.of_N tk) by lia.
    assert (Hfuel' : (length q < fuel)%nat) by lia.
    destruct (encode s) as [bytes|];
      [destruct (IH fuel end_time (update h bytes) (log ++ [Turn true (Some s)])
                   (nw + Z.of_N tk) tk Hfuel' Hlate') as (h' & new & w' & Hrun & Hn)
      |destruct (IH fuel end_time h (log ++ [Turn true (Some s)])
                   (nw + Z.of_N tk) tk Hfuel' Hlate') as (h' & new & w' & Hrun & Hn)];
      exists h', (Turn true (Some s) :: new), w';
      (split; [rewrite Hrun, <- app_assoc; reflexivity
              |rewrite late_pops_cons, Hn; reflexivity]).
Qed.

(** A [put] that has happened by [t]. *)
Definition due (t : Z) (a : Z * pystr) : Prop := fst a <= t.

Lemma deliver_due t p : forall q,
  Forall (due t) p -> deliver t p q = ([], q ++ map snd p).
Proof.
  induction p as [|[ts s] p IH]; intros q H; cbn [deliver map].
  - rewrite app_nil_r. reflexivity.
  - inversion H as [|? ? Ha Hp]. unfold due in Ha. cbn [fst] in Ha.
    apply Z.leb_le in Ha. rewrite Ha, (IH _ Hp), <- app_assoc. reflexivity.
Qed.

(** A turn before the deadline, in a world whose pending [put]s are all due:
    the oldest sample is popped. *)
Lemma early_turn_due fuel end_time h log nw tk p q s r :
  nw < end_time ->
  Forall (due nw) p ->
  q ++ map snd p = s :: r ->
  collector_loop (S fuel) end_time h log (World nw tk p q) =
  match encode s with
  | Some bytes =>
      collector_loop fuel end_time (update h bytes) (log ++ [Turn false (Some s)])
                     (World (nw + Z.of_N tk) tk [] r)
  | None =>
      collector_loop fuel end_time h (log ++ [Turn false (Some s)])
                     (World (nw + Z.of_N tk) tk [] r)
  end.
Proof.
  intros Hearly Hdue Hall.
  cbn [collector_loop time_time world_env world_time now].
  rewrite (proj2 (Z.ltb_lt nw end_time) Hearly).
  cbn [queue_get world_env]. unfold world_get, arrive.
  cbn [now pending fifo tick]. rewrite (deliver_due nw p q Hdue), Hall.
  reflexivity.
Qed.

(** A collector whose window is no longer than the time it spends on one
    sample, started when [S n] samples have been put: the first sample is
    taken in time, the other [n] after the deadline. *)
Lemma due_backlog_run (n : nat) (w : world) run_time final_result fuel :
  Forall (due (now w)) (pending w) ->
  length (fifo w ++ map snd (pending w)) = S n ->
  0 < run_time <= Z.of_N (tick w) ->
  (S (S n) <= fuel)%nat ->
  exists res log w',
    entropy_collector fuel final_result run_time w = Some (res, log, w') /\
    late_pops log = n.
Proof.
  destruct w as [nw tk p q]. cbn [now tick pending fifo].
  intros Hdue Hlen Hwin Hfuel.
  destruct fuel as [|fuel]; [lia|].
  destruct (q ++ map snd p) as [|s r] eqn:Hall; [discriminate|].
  cbn [length] in Hlen.
  unfold entropy_collector. cbn [time_time world_env world_time now].
  rewrite (early_turn_due fuel (nw + run_time) new [] nw tk p q s r)
    by (try assumption; lia).
  destruct (encode s) as [bytes|];
    match goal with
    | |- context [collector_loop ?f ?e ?h ?l (World ?nw' ?tk' [] ?q')] =>
        destruct (drain_backlog q' f e h l nw' tk') as (h' & l' & w' & Hrun & Hn);
          [lia | lia |]
    end;
    rewrite Hrun; do 3 eexists; (split; [reflexivity|]);
    cbn [app]; rewrite late_pops_cons; cbn [late andb]; lia.
Qed.

(** A queue that already holds [S n] copies of a sample, a window of one
    millisecond, and one millisecond spent on each sample. *)
Definition backlog (n : nat) : world :=
  World 0 1 [] (repeat (of_string "0.049000_7_1000") (S n)).

Lemma backlog_run (n : nat) final_result :
  exists res log w',
    entropy_collector (S (S n)) final_result 1 (backlog n) = Some (res, log, w') /\
    late_pops log = n.
Proof.
  apply due_backlog_run.
  - constructor.
  - unfold backlog. cbn [fifo pending map]. rewrite app_nil_r, repeat_length.
    reflexivity.
  - split; reflexivity || discriminate.
  - apply le_n.
Qed.

(** *** A quiet world: nothing in the queue and nothing due yet *)

Lemma deliver_later t p q :
  Forall (fun a => t < fst a) p -> deliver t p q = (p, q).
Proof.
  intros H. destruct H as [|[ts s] l Ha Hl]; [reflexivity|].
  cbn [deliver]. cbn [fst] in Ha. apply Z.leb_gt in Ha. rewrite Ha. reflexivity.
Qed.

Lemma arrive_quiet (w : world) :
  Forall (fun a => now w < fst a) (pending w) -> arrive w = w.
Proof.
  intros H. unfold arrive. rewrite (deliver_later _ _ _ H).
  destruct w; reflexivity.
Qed.

Lemma quiet_collector (w : world) fuel final_result :
  fifo w = [] ->
  Forall (fun a => now w < fst a) (pending w) ->
  entropy_collector (S fuel) final_result 0 w =
  Some (final_result ++ [hex (sha256 [])], [], w).
Proof.
  intros Hq Hp. unfold entropy_collector.
  cbn [time_time world_env world_time collector_loop].
  rewrite Z.add_0_r, Z.ltb_irrefl.
  cbn [queue_empty world_env]. unfold world_empty.
  rewrite (arrive_quiet w Hp), Hq. reflexivity.
Qed.

Lemma timed_later c gap (items : list (nat * pystr)) : forall t k,
  c < t + Z.of_N (gap k) ->
  Forall (fun a : arrival => c < fst a) (timed t gap k items).
Proof.
  induction items as [|s l IH]; intros t k H; cbn [timed]; constructor.
  - exact H.
  - apply IH. pose proof (N2Z.is_nonneg (gap (S k))). lia.
Qed.

Lemma merge_Forall (P : arrival -> Prop) (l1 : list arrival) : forall l2,
  Forall P l1 -> Forall P l2 -> Forall P (merge l1 l2).
Proof.
  induction l1 as [|a1 r1 IH1]; intros l2 H1 H2.
  - destruct l2; assumption.
  - induction l2 as [|a2 r2 IH2]; [assumption|].
    cbn [merge]. inversion H1 as [|? ? Ha1 Hr1]. inversion H2 as [|? ? Ha2 Hr2].
    destruct (fst a1 <=? fst a2).
    + constructor; [exact Ha1|]. apply IH1; assumption.
    + constructor; [exact Ha2|]. apply IH2. exact Hr2.
Qed.

Lemma for_queue_later c q (l : list arrival) :
  Forall (fun a => c < fst a) l ->
  Forall (fun a => c < fst a) (for_queue q l).
Proof.
  induction 1 as [|a l Ha Hl IH]; [constructor|].
  cbn [for_queue flat_map]. destruct (Nat.eqb (fst (snd a)) q); cbn [app].
  - constructor; [exact Ha | exact IH].
  - exact IH.
Qed.

(** No generator has put anything when the collector looks at the queue. *)
Definition nothing_yet (sys : system) : Prop :=
  forall i, clock sys < started_at sys i + Z.of_N (gaps sys i 0).

Lemma collector_world_quiet entropy_pool sys :
  nothing_yet sys ->
  Forall (fun a => clock sys < fst a) (pending (collector_world entropy_pool sys)).
Proof.
  intros H. unfold collector_world. cbn [pending].
  apply for_queue_later.
  unfold generators_started. rewrite !thread_start_generator_pending.
  change (m_pending (snd (queue_new boot))) with (@nil arrival).
  apply merge_Forall; [apply merge_Forall; [apply merge_Forall|]|].
  - constructor.
  - apply timed_later, H.
  - apply timed_later, H.
  - apply timed_later, H.
Qed.

End Scenarios.

(* ------------------------------------------------------------------ *)
(** ** The system returns *)
(* ------------------------------------------------------------------ *)

Module SystemFacts.
Import Collector Generators Utf8 Orchestrator.
Import SHA256 SHA256Facts CollectorFacts WorldFacts GeneratorFacts OrchestratorFacts.

(** The machine [run_with_pool] ends in, given what the collector did. *)
Definition final_machine (entropy_pool : pyobj) (sys : system) (total_time : Z)
    (final_result : list string) (log : list turn) (w' : world) : machine :=
  Machine 1
    [Generator LogisticMap entropy_pool 0 10000;
     Generator LorenzSystem entropy_pool 0 10000;
     Generator RandomWalk entropy_pool 0 10000;
     EntropyCollector 0 total_time]
    [EntropyCollector 0 total_time]
    (m_pending (generators_started entropy_pool sys))
    final_result log (Some w').

(** With [enough] fuel the collector of the system returns, and the system
    returns its digest. *)
Lemma run_with_pool_returns entropy_pool sys total_time fuel :
  (enough total_time <= fuel)%nat ->
  exists log w',
    let d := hex (sha256 (concat (encoded (dequeued log)))) in
    entropy_collector fuel [] total_time (collector_world entropy_pool sys) =
      Some ([d], log, w') /\
    finished (clock sys + total_time) (collector_world entropy_pool sys) log w' /\
    run_with_pool entropy_pool sys fuel total_time =
      Some (Some d, final_machine entropy_pool sys total_time [d] log w').
Proof.
  intros Hfuel.
  pose proof (collector_world_items entropy_pool sys) as Hi.
  pose proof (slack_start total_time (collector_world entropy_pool sys)) as Hs.
  unfold enough in Hfuel.
  destruct (world_collector_terminates fuel [] total_time
              (collector_world entropy_pool sys)) as (log & w' & Hrun & Hfin).
  { rewrite Hi, Hs. lia. }
  exists log, w'. cbn zeta. cbn [app] in Hrun.
  split; [exact Hrun|]. split; [exact Hfin|].
  rewrite run_with_pool_unfold, Hrun. reflexivity.
Qed.

(** The generator functions do not look at their first argument. *)
Lemma body_ignores_pool f p1 p2 queue steps :
  body f p1 queue steps = body f p2 queue steps.
Proof. destruct f; reflexivity. Qed.

Lemma collector_world_ignores_pool p1 p2 sys :
  collector_world p1 sys = collector_world p2 sys.
Proof.
  unfold collector_world, generators_started.
  rewrite !thread_start_generator_pending.
  rewrite (body_ignores_pool LogisticMap p1 p2).
  rewrite (body_ignores_pool LorenzSystem p1 p2).
  rewrite (body_ignores_pool RandomWalk p1 p2).
  reflexivity.
Qed.

(** *** The whole production as drain tail *)

(** Every generator has made all its [put]s when the collector starts. *)
Definition all_put_before (sys : system) : Prop :=
  (forall i k, gaps sys i k = 0%N) /\ (forall i, started_at sys i <= clock sys).

Lemma timed_due c gap (items : list (nat * pystr)) :
  (forall k, gap k = 0%N) ->
  forall t k, t <= c -> Forall (fun a : arrival => fst a <= c) (timed t gap k items).
Proof.
  intros Hgap. induction items as [|s l IH]; intros t k Ht; cbn [timed]; [constructor|].
  rewrite Hgap, Z.add_0_r. constructor; [exact Ht|]. apply IH. exact Ht.
Qed.

Lemma for_queue_due c q (l : list arrival) :
  Forall (fun a => fst a <= c) l -> Forall (Scenarios.due c) (for_queue q l).
Proof.
  induction 1 as [|a l Ha Hl IH]; [constructor|].
  cbn [for_queue flat_map]. destruct (Nat.eqb (fst (snd a)) q); cbn [app].
  - constructor; [exact Ha | exact IH].
  - exact IH.
Qed.

Lemma collector_world_due entropy_pool sys :
  all_put_before sys ->
  Forall (Scenarios.due (now (collector_world entropy_pool sys)))
         (pending (collector_world entropy_pool sys)).
Proof.
  intros [Hgap Hstart]. unfold collector_world. cbn [now pending].
  apply for_queue_due.
  unfold generators_started. rewrite !thread_start_generator_pending.
  change (m_pending (snd (queue_new boot))) with (@nil arrival).
  apply Scenarios.merge_Forall;
    [apply Scenarios.merge_Forall; [apply Scenarios.merge_Forall|]|].
  - constructor.
  - apply timed_due; [apply Hgap | apply Hstart].
  - apply timed_due; [apply Hgap | apply Hstart].
  - apply timed_due; [apply Hgap | apply Hstart].
Qed.

(** When the generators are ahead of a collector that spends at least its
    whole window on one sample, all samples but the first are popped after
    the deadline: 29999 of them. *)
Lemma collector_world_fifo entropy_pool sys :
  fifo (collector_world entropy_pool sys) = [].
Proof. reflexivity. Qed.

Lemma collector_world_tick entropy_pool sys :
  tick (collector_world entropy_pool sys) = cpu sys.
Proof. reflexivity. Qed.

Lemma collector_world_pending_length entropy_pool sys :
  length (pending (collector_world entropy_pool sys)) = Z.to_nat 30000.
Proof.
  destruct (generators_started_pending entropy_pool sys) as [F L].
  unfold collector_world. cbn [pending].
  rewrite (for_queue_length 0 _ F). exact L.
Qed.

Lemma system_tail_is_whole_production sys total_time fuel :
  all_put_before sys ->
  0 < total_time <= Z.of_N (cpu sys) ->
  (enough total_time <= fuel)%nat ->
  exists d m,
    run_with_pool PyNone sys fuel total_time = Some (Some d, m) /\
    late_pops (m_log m) = Z.to_nat 29999.
Proof.
  intros Hbefore Hwin Hfuel.
  pose proof (collector_world_due PyNone sys Hbefore) as Hdue.
  rewrite run_with_pool_unfold.
  destruct (Scenarios.due_backlog_run (Z.to_nat 29999) (collector_world PyNone sys)
              total_time [] fuel Hdue) as (res & log & w' & Hcol & Hn).
  - rewrite collector_world_fifo. cbn [app].
    rewrite length_map, collector_world_pending_length. lia.
  - rewrite collector_world_tick. exact Hwin.
  - unfold enough in Hfuel. lia.
  - pose proof (entropy_collector_digest _ _ _ _ _ _ _ Hcol) as D.
    cbn [app] in D. rewrite Hcol, D.
    eexists. eexists. split; [reflexivity|]. exact Hn.
Qed.

End SystemFacts.

(* ================================================================== *)
(** * The claims *)
(* ================================================================== *)

Import Collector Generators Utf8 Orchestrator.
Import SHA256 SHA256Facts CollectorFacts WorldFacts GeneratorFacts.
Import OrchestratorFacts Scenarios SystemFacts.

(** ** Concrete inputs used below *)

(** A queue that starts empty; the samples "a", "b", "c" are put 10, 140 and
    141 ms later, and the collector spends 2 ms on each. *)
Definition abc_spread_world : world :=
  World 10 2 [(20, of_string "a"); (150, of_string "b"); (151, of_string "c")] [].

(** A system in which every generator makes its first [put] after the
    collector has started. *)
Definition quiet_system : system :=
  System 0 0 (fun _ => demo_oracle) (fun _ => 1) (fun _ _ => 1%N).

(** A system in which every generator has made all its [put]s before the
    collector starts, and the collector spends a millisecond on a sample. *)
Definition busy_system : system :=
  System 0 1 (fun _ => demo_oracle) (fun _ => 0) (fun _ _ => 0%N).

(** Draws of [random.random()] lie in the interval from 0 (included) to 1
    (excluded). *)
Definition unit_draws (o : oracle) : Prop :=
  forall k, (0 <=? rand o k)%float = true /\ (rand o k <? 1)%float = true.

(** The largest value [random.random()] returns, 1 - 2^-53. *)
Definition largest_draw : float := 0x1.fffffffffffffp-1%float.

Definition top_oracle : oracle :=
  Oracle (fun _ => largest_draw) (fun _ => x00) (fun k => Z.of_nat k).

(** [random.random()] returns 0.5 and from then on 0.0. *)
Definition zero_oracle : oracle :=
  Oracle (fun k => match k with O => 0.5%float | S _ => 0%float end)
         (fun _ => x00) (fun k => Z.of_nat k).

Lemma top_oracle_unit : unit_draws top_oracle.
Proof. intros k. split; reflexivity. Qed.

Lemma zero_oracle_unit : unit_draws zero_oracle.
Proof. intros [|k]; split; reflexivity. Qed.

(** ** C1 *)

(** C1. Whatever the environment, the digest the collector appends to
    [final_result] is the SHA-256 hash, in lowercase hex, of the concatenation
    of the UTF-8 encodings of the samples it dequeued, in dequeue order. In
    the world of timed [put]s the collector does return, with that digest. In
    particular, when the queue starts empty and exactly the samples "a", "b",
    "c" are put in that order and popped before the deadline, the digest is
    the hash of "abc". *)
Theorem collector_digest_is_hash_of_arrivals :
  (forall (W : Type) (E : Env W) fuel final_result run_time (w : W)
          res log w' payloads,
      entropy_collector fuel final_result run_time w = Some (res, log, w') ->
      map encode (dequeued log) = map Some payloads ->
      res = final_result ++ [hex (sha256 (concat payloads))]) /\
  (forall (w : world) run_time final_result fuel,
      (items w + slack (now w + run_time) w < fuel)%nat ->
      exists log w',
        entropy_collector fuel final_result run_time w =
          Some (final_result ++ [hex (sha256 (concat (encoded (dequeued log))))],
                log, w')) /\
  (exists log w',
      entropy_collector 60 [] 400 abc_spread_world =
        Some ([hex (sha256 (bytes_of_string "abc"))], log, w') /\
      dequeued log = [of_string "a"; of_string "b"; of_string "c"] /\
      late_pops log = 0%nat /\
      hex (sha256 (bytes_of_string "abc")) =
        "ba7816bf8f01cfea414140de5dae2223b00361a396177a9cb410ff61f20015ad"%string).
Proof.
  split; [|split].
  - intros W E fuel final_result run_time w res log w' payloads Hrun Henc.
    rewrite (entropy_collector_digest _ _ _ _ _ _ _ Hrun).
    rewrite (encoded_all _ _ Henc). reflexivity.
  - intros w run_time final_result fuel Hfuel.
    destruct (world_collector_terminates fuel final_result run_time w Hfuel)
      as (log & w' & Hrun & _).
    exists log, w'. exact Hrun.
  - let r := eval vm_compute in (entropy_collector 60 [] 400 abc_spread_world) in
    match r with
    | Some (_, ?log, ?w') => exists log, w'
    end.
    repeat split; vm_compute; reflexivity.
Qed.

Lemma collector_digest_is_hash_of_arrivals_witness :
  (exists res log w',
     entropy_collector 60 [] 5000 abc_world = Some (res, log, w') /\
     map encode (dequeued log) = map Some [[x61]; [x62]; [x63]] /\
     res = [] ++ [hex (sha256 (concat [[x61]; [x62]; [x63]]))]) /\
  ((items abc_world + slack (now abc_world + 5000) abc_world < 60)%nat /\
   exists log w',
     entropy_collector 60 [] 5000 abc_world =
       Some ([] ++ [hex (sha256 (concat (encoded (dequeued log))))], log, w')).
Proof.
  split.
  - let r := eval vm_compute in (entropy_collector 60 [] 5000 abc_world) in
    match r with
    | Some (?res, ?log, ?w') => exists res, log, w'
    end.
    split; [vm_compute; reflexivity|].
    split; [vm_compute; reflexivity|].
    eapply (proj1 collector_digest_is_hash_of_arrivals _ _ 60%nat [] 5000
              abc_world).
    + vm_compute. reflexivity.
    + vm_compute. reflexivity.
  - assert (H : (items abc_world + slack (now abc_world + 5000) abc_world < 60)%nat).
    { vm_compute. lia. }
    split; [exact H|].
    exact (proj1 (proj2 collector_digest_is_hash_of_arrivals)
             abc_world 5000 [] 60%nat H).
Defined.

(** ** C5 *)

(** C5. Two runs of the collector, in any two environments and with any
    timing, that dequeue samples with the same byte payloads in the same
    order append the same digest. *)
Theorem collector_digest_deterministic
    (W1 W2 : Type) (E1 : Env W1) (E2 : Env W2)
    fuel1 fuel2 final_result run_time1 run_time2 (w1 : W1) (w2 : W2)
    res1 res2 log1 log2 w1' w2' :
  entropy_collector fuel1 final_result run_time1 w1 = Some (res1, log1, w1') ->
  entropy_collector fuel2 final_result run_time2 w2 = Some (res2, log2, w2') ->
  map encode (dequeued log1) = map encode (dequeued log2) ->
  res1 = res2.
Proof.
  intros H1 H2 Hsame.
  rewrite (entropy_collector_digest _ _ _ _ _ _ _ H1).
  rewrite (entropy_collector_digest _ _ _ _ _ _ _ H2).
  assert (Henc : forall l, encoded l =
            flat_map (fun o : option (list byte) =>
                        match o with Some b => [b] | None => [] end)
                     (map encode l)).
  { induction l as [|s l IH]; [reflexivity|].
    cbn [encoded flat_map map]. fold (encoded l). rewrite IH. reflexivity. }
  rewrite !Henc, Hsame. reflexivity.
Qed.

Lemma collector_digest_deterministic_witness :
  exists res1 res2 log1 log2 w1' w2',
    entropy_collector 60 [] 5000 abc_world = Some (res1, log1, w1') /\
    entropy_collector 60 [] 400 abc_spread_world = Some (res2, log2, w2') /\
    map encode (dequeued log1) = map encode (dequeued log2) /\
    log1 <> log2 /\
    res1 = res2.
Proof.
  let r1 := eval vm_compute in (entropy_collector 60 [] 5000 abc_world) in
  let r2 := eval vm_compute in (entropy_collector 60 [] 400 abc_spread_world) in
  match r1 with
  | Some (?res1, ?log1, ?w1') =>
      match r2 with
      | Some (?res2, ?log2, ?w2') => exists res1, res2, log1, log2, w1', w2'
      end
  end.
  split; [vm_compute; reflexivity|].
  split; [vm_compute; reflexivity|].
  split; [vm_compute; reflexivity|].
  split; [discriminate|].
  eapply (collector_digest_deterministic world world _ _ 60%nat 60%nat [] 5000 400
            abc_world abc_spread_world).
  - vm_compute. reflexivity.
  - vm_compute. reflexivity.
  - vm_compute. reflexivity.
Defined.

(** ** C9 *)

(** C9. Whenever the collector has dequeued at least one sample, what it
    appends to [final_result] is a string of exactly 64 characters, each a
    lowercase hexadecimal digit; and what [run_chaotic_system] returns is such
    a string. *)
Theorem collector_digest_shape :
  (forall (W : Type) (E : Env W) fuel final_result run_time (w : W) res log w',
      entropy_collector fuel final_result run_time w = Some (res, log, w') ->
      dequeued log <> [] ->
      exists d, res = final_result ++ [d] /\
                String.length d = 64%nat /\
                all_chars is_lower_hex d = true) /\
  (forall sys total_time fuel,
      (enough total_time <= fuel)%nat ->
      exists d m,
        run_chaotic_system sys fuel total_time = Some (Some d, m) /\
        String.length d = 64%nat /\
        all_chars is_lower_hex d = true).
Proof.
  split.
  - intros W E fuel final_result run_time w res log w' Hrun _.
    unfold entropy_collector in Hrun.
    destruct (time_time w) as [t0 w1].
    destruct (collector_loop fuel (t0 + run_time) new [] w1) as [[[h l] w2]|];
      [|discriminate].
    injection Hrun as <- <- <-.
    exists (hexdigest h). split; [reflexivity|].
    split; [apply hexdigest_length | apply hexdigest_lower].
  - intros sys total_time fuel Hfuel.
    destruct (run_with_pool_returns PyNone sys total_time fuel Hfuel)
      as (log & w' & _ & _ & Hrun).
    rewrite run_chaotic_system_eq.
    eexists. eexists. split; [exact Hrun|].
    split; [rewrite hex_length; reflexivity | apply hex_lower].
Qed.

Lemma collector_digest_shape_witness :
  (exists res log w',
     entropy_collector 60 [] 5000 abc_world = Some (res, log, w') /\
     dequeued log <> [] /\
     exists d, res = [] ++ [d] /\ String.length d = 64%nat /\
               all_chars is_lower_hex d = true) /\
  ((enough 5000 <= enough 5000)%nat /\
   exists d m,
     run_chaotic_system quiet_system (enough 5000) 5000 = Some (Some d, m) /\
     String.length d = 64%nat /\
     all_chars is_lower_hex d = true).
Proof.
  split.
  - let r := eval vm_compute in (entropy_collector 60 [] 5000 abc_world) in
    match r with
    | Some (?res, ?log, ?w') => exists res, log, w'
    end.
    split; [vm_compute; reflexivity|].
    split; [vm_compute; discriminate|].
    eapply (proj1 collector_digest_shape world _ 60%nat [] 5000 abc_world).
    + vm_compute. reflexivity.
    + vm_compute. discriminate.
  - split; [apply le_n|].
    exact (proj2 collector_digest_shape quiet_system 5000 (enough 5000) (le_n _)).
Defined.

(** ** C4 *)

(** The SHA-256 hash of the empty byte string, in hex. *)
Definition empty_digest : string :=
  "e3b0c44298fc1c149afbf4c8996fb92427ae41e4649b934ca495991b7852b855"%string.

(** A queue with nothing in it and one sample due later. *)
Definition quiet_world : world := World 5 0 [(6, of_string "a")] [].

(** C4. With a window of 0 and no sample available when the collector looks
    at the queue, the collector appends the SHA-256 hash of the empty byte
    string without having dequeued anything, and [run_chaotic_system] returns
    that string, not [None]. *)
Theorem zero_window_gives_empty_digest :
  (forall (w : world) fuel final_result,
      fifo w = [] ->
      Forall (fun a => now w < fst a) (pending w) ->
      entropy_collector (S fuel) final_result 0 w =
        Some (final_result ++ [empty_digest], [], w)) /\
  (forall sys fuel,
      nothing_yet sys ->
      exists m,
        run_chaotic_system sys (S fuel) 0 = Some (Some empty_digest, m) /\
        m_final_result m = [empty_digest] /\
        m_log m = []) /\
  empty_digest = hex (sha256 []).
Proof.
  assert (He : hex (sha256 []) = empty_digest) by (vm_compute; reflexivity).
  split; [|split].
  - intros w fuel final_result Hq Hp.
    rewrite (quiet_collector w fuel final_result Hq Hp), He. reflexivity.
  - intros sys fuel Hquiet.
    rewrite run_chaotic_system_eq, run_with_pool_unfold.
    rewrite (quiet_collector (collector_world PyNone sys) fuel [] eq_refl
               (collector_world_quiet PyNone sys Hquiet)).
    cbn [app]. rewrite He. eexists. repeat split.
  - symmetry. exact He.
Qed.

Lemma zero_window_gives_empty_digest_witness :
  (fifo quiet_world = [] /\
   Forall (fun a => now quiet_world < fst a) (pending quiet_world) /\
   entropy_collector 1 [] 0 quiet_world = Some ([] ++ [empty_digest], [], quiet_world)) /\
  (nothing_yet quiet_system /\
   exists m, run_chaotic_system quiet_system 1 0 = Some (Some empty_digest, m) /\
             m_final_result m = [empty_digest] /\ m_log m = []).
Proof.
  assert (Hq : fifo quiet_world = []) by reflexivity.
  assert (Hp : Forall (fun a => now quiet_world < fst a) (pending quiet_world)).
  { repeat constructor. }
  assert (Hn : nothing_yet quiet_system).
  { intros i. simpl. lia. }
  split.
  - split; [exact Hq|]. split; [exact Hp|].
    exact (proj1 zero_window_gives_empty_digest quiet_world 0%nat [] Hq Hp).
  - split; [exact Hn|].
    exact (proj1 (proj2 zero_window_gives_empty_digest) quiet_system 0%nat Hn).
Defined.

(** ** C2 *)

(** C2, as stated, fails: there is no bound on the number of pops the
    collector makes after its deadline that holds whatever the producers have
    put. With a window of one millisecond and a backlog of [B + 2] samples,
    [B + 1] of them are popped after the deadline. *)
Lemma drain_tail_not_bounded :
  ~ (exists B : nat,
       forall (w : world) (D : Z) fuel final_result res log w',
         0 < D ->
         entropy_collector fuel final_result D w = Some (res, log, w') ->
         (late_pops log <= B)%nat).
Proof.
  intros [B H].
  destruct (backlog_run (S B) []) as (res & log & w' & Hrun & Hn).
  specialize (H (backlog (S B)) 1 _ _ _ _ _ eq_refl Hrun). lia.
Qed.

(** C2, amended. The collector returns once it has as many turns as there
    are samples the producers put plus timeouts that fit in its window, plus
    one; after the deadline no pop times out and there are at most as many
    pops as samples. In [run_chaotic_system], where the three generators put
    30000 samples in all, that is at most 30000 pops after the deadline,
    whatever the duration and the timing; and when the generators are ahead
    of a collector that spends its whole window on one sample, 29999 pops
    come after the deadline. *)
Theorem collector_returns_within_producers_bound :
  (forall (w : world) run_time final_result fuel,
      (items w + slack (now w + run_time) w < fuel)%nat ->
      exists res log w',
        entropy_collector fuel final_result run_time w = Some (res, log, w') /\
        (late_pops log <= items w)%nat /\
        late_timeouts log = 0%nat /\
        (length log <= items w + slack (now w + run_time) w)%nat) /\
  (forall sys total_time fuel,
      (enough total_time <= fuel)%nat ->
      exists d m,
        run_chaotic_system sys fuel total_time = Some (Some d, m) /\
        (late_pops (m_log m) <= Z.to_nat 30000)%nat /\
        late_timeouts (m_log m) = 0%nat /\
        (length (m_log m) < enough total_time)%nat) /\
  (forall sys total_time fuel,
      all_put_before sys ->
      0 < total_time <= Z.of_N (cpu sys) ->
      (enough total_time <= fuel)%nat ->
      exists d m,
        run_chaotic_system sys fuel total_time = Some (Some d, m) /\
        late_pops (m_log m) = Z.to_nat 29999).
Proof.
  split; [|split].
  - intros w run_time final_result fuel Hfuel.
    destruct (world_collector_terminates fuel final_result run_time w Hfuel)
      as (log & w' & Hrun & [F1 F2 F3 F4 F5 F6]).
    eexists. exists log, w'. split; [exact Hrun|]. auto.
  - intros sys total_time fuel Hfuel.
    destruct (run_with_pool_returns PyNone sys total_time fuel Hfuel)
      as (log & w' & _ & [F1 F2 F3 F4 F5 F6] & Hrun).
    rewrite (collector_world_items PyNone sys) in F2, F4.
    change (clock sys) with (now (collector_world PyNone sys)) in F4.
    rewrite slack_start in F4. rewrite run_chaotic_system_eq.
    eexists. eexists. split; [exact Hrun|].
    unfold final_machine, enough. cbn [m_log].
    split; [exact F2|]. split; [exact F3|].
    apply Nat.lt_succ_r. exact F4.
  - intros sys total_time fuel Hbefore Hwin Hfuel.
    rewrite run_chaotic_system_eq.
    exact (system_tail_is_whole_production sys total_time fuel Hbefore Hwin Hfuel).
Qed.

Lemma collector_returns_within_producers_bound_witness :
  ((items abc_spread_world + slack (now abc_spread_world + 400) abc_spread_world < 60)%nat /\
   exists res log w',
     entropy_collector 60 [] 400 abc_spread_world = Some (res, log, w') /\
     (late_pops log <= items abc_spread_world)%nat /\
     late_timeouts log = 0%nat /\
     (length log <= items abc_spread_world
                    + slack (now abc_spread_world + 400) abc_spread_world)%nat) /\
  ((enough 5000 <= enough 5000)%nat /\
   exists d m,
     run_chaotic_system quiet_system (enough 5000) 5000 = Some (Some d, m) /\
     (late_pops (m_log m) <= Z.to_nat 30000)%nat /\
     late_timeouts (m_log m) = 0%nat /\
     (length (m_log m) < enough 5000)%nat) /\
  (all_put_before busy_system /\
   0 < 1 <= Z.of_N (cpu busy_system) /\
   (enough 1 <= enough 1)%nat /\
   exists d m,
     run_chaotic_system busy_system (enough 1) 1 = Some (Some d, m) /\
     late_pops (m_log m) = Z.to_nat 29999).
Proof.
  assert (H1 : (items abc_spread_world
                + slack (now abc_spread_world + 400) abc_spread_world < 60)%nat).
  { vm_compute. lia. }
  assert (H2 : all_put_before busy_system).
  { split; intros; simpl; lia. }
  assert (H3 : 0 < 1 <= Z.of_N (cpu busy_system)).
  { simpl. lia. }
  split; [|split].
  - split; [exact H1|].
    exact (proj1 collector_returns_within_producers_bound
             abc_spread_world 400 [] 60%nat H1).
  - split; [apply le_n|].
    exact (proj1 (proj2 collector_returns_within_producers_bound)
             quiet_system 5000 (enough 5000) (le_n _)).
  - split; [exact H2|]. split; [exact H3|]. split; [apply le_n|].
    exact (proj2 (proj2 collector_returns_within_producers_bound)
             busy_system 1 (enough 1) H2 H3 (le_n _)).
Defined.

(** ** C6 *)

(** C6. [run_chaotic_system] creates one queue, starts the three generators
    with a bound of 10000 steps each and then the collector with the given
    duration, joins the collector and nothing else, and returns the digest
    the collector appended; the samples the collector did not dequeue are
    left behind. *)
Theorem run_chaotic_system_structure sys total_time fuel :
  (enough total_time <= fuel)%nat ->
  exists d log w' m,
    run_chaotic_system sys fuel total_time = Some (Some d, m) /\
    m_queues m = 1%nat /\
    m_started m =
      [Generator LogisticMap PyNone 0 10000;
       Generator LorenzSystem PyNone 0 10000;
       Generator RandomWalk PyNone 0 10000;
       EntropyCollector 0 total_time] /\
    m_joined m = [EntropyCollector 0 total_time] /\
    entropy_collector fuel [] total_time (collector_world PyNone sys) =
      Some ([d], log, w') /\
    m_final_result m = [d] /\
    m_world m = Some w' /\
    (length (dequeued log) + items w' = Z.to_nat 30000)%nat.
Proof.
  intros Hfuel.
  destruct (run_with_pool_returns PyNone sys total_time fuel Hfuel)
    as (log & w' & Hcol & [F1 F2 F3 F4 F5 F6] & Hrun).
  rewrite (collector_world_items PyNone sys) in F1.
  rewrite run_chaotic_system_eq.
  eexists. exists log, w'. eexists.
  split; [exact Hrun|].
  unfold final_machine. cbn [m_queues m_started m_joined m_final_result m_world].
  repeat split; try exact Hcol; exact F1.
Qed.

Lemma run_chaotic_system_structure_witness :
  (enough 5000 <= enough 5000)%nat /\
  exists d log w' m,
    run_chaotic_system quiet_system (enough 5000) 5000 = Some (Some d, m) /\
    m_queues m = 1%nat /\
    m_started m =
      [Generator LogisticMap PyNone 0 10000;
       Generator LorenzSystem PyNone 0 10000;
       Generator RandomWalk PyNone 0 10000;
       EntropyCollector 0 5000] /\
    m_joined m = [EntropyCollector 0 5000] /\
    entropy_collector (enough 5000) [] 5000 (collector_world PyNone quiet_system) =
      Some ([d], log, w') /\
    m_final_result m = [d] /\
    m_world m = Some w' /\
    (length (dequeued log) + items w' = Z.to_nat 30000)%nat.
Proof.
  split; [apply le_n|].
  exact (run_chaotic_system_structure quiet_system 5000 (enough 5000) (le_n _)).
Defined.

(** ** C3 *)

(** What holds of the logistic thread on every input: [r] and [x0] are the
    first two draws ([r] through [random.uniform(3.7, 4.0)]), [r] never
    changes, and iteration [k] sleeps, then puts the sample made of [r], the
    [k+1]-th iterate of [x <- r * x * (1 - x)] and the clock reading. *)
Lemma logistic_thread_iterates_map entropy_pool queue steps o :
  fst (logistic_init o start) = ((3.7 + (4.0 - 3.7) * rand o 0)%float, rand o 1) /\
  run (logistic_map_thread entropy_pool queue steps) o =
    flat_map (logistic_turn queue (logistic_r o) (logistic_x0 o) o 2 0)
             (seq 0 (Z.to_nat steps)) /\
  (forall r x0 k, logistic_orbit r x0 (S k) =
                  (r * logistic_orbit r x0 k * (1 - logistic_orbit r x0 k))%float).
Proof.
  split; [reflexivity|]. split; [apply logistic_map_thread_run|]. reflexivity.
Qed.

(** C3: the code at the failing input. With draws of [random.random()] in
    its range, the initial [x] can be 0.0, outside (0,1): the state then never
    moves and every sample carries [x = 0.000000]. With the largest draw, [r]
    is 4.0, outside [3.7, 4.0). *)
Theorem logistic_start_outside_claimed_ranges :
  (unit_draws zero_oracle /\
   snd (fst (logistic_init zero_oracle start)) = 0%float /\
   (0 <? snd (fst (logistic_init zero_oracle start)))%float = false /\
   puts (run (logistic_map_thread PyNone 0 3) zero_oracle) =
     [of_string "3.850000_0.000000_0";
      of_string "3.850000_0.000000_1";
      of_string "3.850000_0.000000_2"]) /\
  (unit_draws top_oracle /\
   fst (fst (logistic_init top_oracle start)) = 4.0%float /\
   (fst (fst (logistic_init top_oracle start)) <? 4.0)%float = false).
Proof.
  split; (split; [first [exact zero_oracle_unit | exact top_oracle_unit]|]);
    repeat split; vm_compute; reflexivity.
Qed.

(** ** C7 *)

(** The ranges of C7, read on the values the thread draws. *)
Definition lorenz_ranges_half_open : Prop :=
  forall o, unit_draws o ->
    let c := fst (lorenz_init o start) in
    ((9.0 <=? l_sigma c) && (l_sigma c <? 11.0) &&
     (27.0 <=? l_rho c) && (l_rho c <? 29.0) &&
     (2.5 <=? l_beta c) && (l_beta c <? 3.0))%float = true.

(** C7, as stated, fails: with the largest draw of [random.random()] the
    three parameters are the upper ends 11.0, 29.0 and 3.0. *)
Lemma lorenz_upper_ends_attained : ~ lorenz_ranges_half_open.
Proof.
  intros H. specialize (H top_oracle top_oracle_unit).
  vm_compute in H. discriminate.
Qed.

(** C7, amended. The Lorenz thread draws its parameters once, as
    [9.0 + (11.0 - 9.0) * u], [27.0 + (29.0 - 27.0) * u] and
    [2.5 + (3.0 - 2.5) * u] from three draws [u] of [random.random()], and its
    initial point from the next three; they stay fixed, and every iteration
    is one forward-Euler step with [dt = 0.01] whose three increments are
    computed from the point before the step. The upper ends 11.0, 29.0 and
    3.0 can be attained. *)
Theorem lorenz_thread_is_forward_euler :
  (forall entropy_pool queue steps o,
      fst (lorenz_init o start) =
        LorenzStart (9.0 + (11.0 - 9.0) * rand o 0)%float
                    (27.0 + (29.0 - 27.0) * rand o 1)%float
                    (2.5 + (3.0 - 2.5) * rand o 2)%float
                    (rand o 3) (rand o 4) (rand o 5) /\
      run (lorenz_system_thread entropy_pool queue steps) o =
        flat_map (lorenz_turn queue (lorenz_sigma o) (lorenz_rho o) (lorenz_beta o)
                    (lorenz_p0 o) o 6 0) (seq 0 (Z.to_nat steps))) /\
  (forall sigma rho beta p k,
      lorenz_orbit sigma rho beta p (S k) =
      lorenz_next sigma rho beta (lorenz_orbit sigma rho beta p k)) /\
  (forall sigma rho beta x y z,
      lorenz_next sigma rho beta (x, y, z) =
      (x + sigma * (y - x) * 0.01,
       y + (x * (rho - z) - y) * 0.01,
       z + (x * y - beta * z) * 0.01)%float) /\
  (unit_draws top_oracle /\
   fst (lorenz_init top_oracle start) =
     LorenzStart 11.0 29.0 3.0 largest_draw largest_draw largest_draw).
Proof.
  split; [|split; [|split]].
  - intros entropy_pool queue steps o.
    split; [reflexivity | apply lorenz_system_thread_run].
  - reflexivity.
  - reflexivity.
  - split; [exact top_oracle_unit | vm_compute; reflexivity].
Qed.

(** ** C8 *)

(** C8. Iteration [k] of the random walk reads exactly eight bytes of the
    operating system's random source (the bytes [8k .. 8k+7] of what the
    thread reads), takes them as an unsigned big-endian integer [v], and
    moves the position by [shift * 0.001] with [shift = v mod 100 - 50], which
    lies between -50 and 49. *)
Theorem random_walk_step_rule entropy_pool queue steps o :
  run (random_walk_thread entropy_pool queue steps) o =
    flat_map (walk_turn queue 0 o 0 0 0) (seq 0 (Z.to_nat steps)) /\
  n_bytes (snd (random_walk_thread entropy_pool queue steps o start)) =
    (8 * Z.to_nat steps)%nat /\
  forall k,
    let bytes := map (os_random o) (seq (8 * k) 8) in
    length bytes = 8%nat /\
    walk_value o 0 k = int_from_bytes bytes /\
    walk_shift o 0 k = walk_value o 0 k mod 100 - 50 /\
    -50 <= walk_shift o 0 k <= 49 /\
    walk_position o 0 0 (S k) =
      (walk_position o 0 0 k + float_of_Z (walk_shift o 0 k) * 0.001)%float.
Proof.
  split; [apply random_walk_thread_run|]. split.
  - unfold random_walk_thread. rewrite random_walk_loop_run. reflexivity.
  - intros k bytes. subst bytes.
    split; [rewrite length_map, length_seq; reflexivity|].
    split; [reflexivity|]. split; [reflexivity|]. split; [|reflexivity].
    unfold walk_shift.
    pose proof (Z.mod_pos_bound (walk_value o 0 k) 100 eq_refl). lia.
Qed.

(** ** C10 *)

(** C10. The three generator functions are the same function whatever
    their first argument, so a thread has the same effects with any value of
    it, and the value [run_chaotic_system] returns does not depend on what is
    passed there (the program passes [None]). *)
Theorem generators_ignore_entropy_pool (p1 p2 : pyobj) :
  (forall queue steps,
      logistic_map_thread p1 queue steps = logistic_map_thread p2 queue steps /\
      lorenz_system_thread p1 queue steps = lorenz_system_thread p2 queue steps /\
      random_walk_thread p1 queue steps = random_walk_thread p2 queue steps) /\
  (forall f queue steps o,
      sends (run (body f p1 queue steps) o) = sends (run (body f p2 queue steps) o)) /\
  (forall sys fuel total_time,
      option_map fst (run_with_pool p1 sys fuel total_time) =
      option_map fst (run_with_pool p2 sys fuel total_time)) /\
  (forall sys fuel total_time,
      run_chaotic_system sys fuel total_time =
      run_with_pool PyNone sys fuel total_time).
Proof.
  split; [|split; [|split]].
  - intros queue steps. repeat split.
  - intros f queue steps o. rewrite (body_ignores_pool f p1 p2). reflexivity.
  - intros sys fuel total_time.
    rewrite !run_with_pool_unfold, (collector_world_ignores_pool p1 p2).
    destruct (entropy_collector fuel [] total_time (collector_world p2 sys))
      as [[[fr log] w']|]; cbn [option_map fst]; reflexivity.
  - exact run_chaotic_system_eq.
Qed.

(* ================================================================== *)
(** * Further properties of the code *)
(* ================================================================== *)

(** ** What a run of the collector leaves in the world *)

Module Trace.

(** The samples of a world in the order the queue hands them over: those in
    the queue, then those still to be put. *)
Definition arrivals (w : world) : list pystr := fifo w ++ map snd (pending w).

(** Turns in which [queue.get] raised [Empty]. *)
Definition timeouts (log : list turn) : nat :=
  length (filter (fun t => match got t with Some _ => false | None => true end) log).

Lemma timeouts_cons t l :
  timeouts (t :: l) =
  ((match got t with Some _ => 0 | None => 1 end) + timeouts l)%nat.
Proof. unfold timeouts. cbn [filter]. destruct (got t); reflexivity. Qed.

Lemma length_log (log : list turn) :
  length log = (length (dequeued log) + timeouts log)%nat.
Proof.
  induction log as [|t l IH]; [reflexivity|].
  rewrite timeouts_cons. cbn [dequeued flat_map length]. fold (dequeued l).
  rewrite length_app, IH. destruct (got t); cbn [length]; lia.
Qed.

(** Delivery moves a prefix of the pending [put]s to the end of the queue. *)
Lemma deliver_prefix t p : forall q p' q',
  deliver t p q = (p', q') ->
  exists l, p = l ++ p' /\ q' = q ++ map snd l /\ Forall (fun a => fst a <= t) l.
Proof.
  induction p as [|[ts s] p IH]; intros q p' q' H; cbn [deliver] in H.
  - injection H as <- <-. exists []. cbn [map app]. rewrite app_nil_r.
    repeat split. constructor.
  - destruct (ts <=? t) eqn:C.
    + destruct (IH _ _ _ H) as (l & -> & -> & Hl).
      exists ((ts, s) :: l). cbn [app map snd]. rewrite <- app_assoc.
      repeat split. constructor; [apply Z.leb_le in C; exact C | exact Hl].
    + injection H as <- <-. exists []. cbn [map app]. rewrite app_nil_r.
      repeat split. constructor.
Qed.

Lemma arrive_prefix w :
  exists l, pending w = l ++ pending (arrive w) /\
            fifo (arrive w) = fifo w ++ map snd l /\
            Forall (fun a => fst a <= now w) l.
Proof.
  unfold arrive. destruct (deliver (now w) (pending w) (fifo w)) as [p q] eqn:D.
  cbn [pending fifo]. exact (deliver_prefix _ _ _ _ _ D).
Qed.

Lemma arrive_arrivals w : arrivals (arrive w) = arrivals w.
Proof.
  destruct (arrive_prefix w) as (l & Hp & Hq & _).
  unfold arrivals. rewrite Hq, Hp, map_app, app_assoc. reflexivity.
Qed.

(** [l2] is what is left of the [put]s [l1] once the first of them, all made
    by [t], have happened. *)
Definition taken (t : Z) (l2 l1 : list (Z * pystr)) : Prop :=
  exists l, l1 = l ++ l2 /\ Forall (fun a => fst a <= t) l.

Lemma taken_refl t l : taken t l l.
Proof. exists []. split; [reflexivity | constructor]. Qed.

Lemma taken_mono t t' l2 l1 : t <= t' -> taken t l2 l1 -> taken t' l2 l1.
Proof.
  intros Ht (l & -> & Hl). exists l. split; [reflexivity|].
  apply Forall_forall. intros a Ha.
  pose proof (proj1 (Forall_forall _ _) Hl a Ha). cbn beta in *. lia.
Qed.

Lemma taken_trans t l3 l2 l1 : taken t l3 l2 -> taken t l2 l1 -> taken t l3 l1.
Proof.
  intros (a & -> & Ha) (b & -> & Hb). exists (b ++ a).
  split; [rewrite app_assoc; reflexivity|].
  apply Forall_app. split; assumption.
Qed.

Lemma taken_tail t a l : fst a <= t -> taken t l (a :: l).
Proof. intros H. exists [a]. split; [reflexivity|]. constructor; [exact H | constructor]. Qed.

Lemma arrive_taken w : taken (now w) (pending (arrive w)) (pending w).
Proof. destruct (arrive_prefix w) as (l & Hp & _ & Hl). exists l. split; assumption. Qed.

(** What one [queue.get] does to the world. *)
Lemma world_get_spec w :
  (exists s w3, world_get w = (Some s, w3) /\
                arrivals w = s :: arrivals w3 /\
                taken (now w3) (pending w3) (pending w) /\
                now w <= now w3) \/
  (exists w3, world_get w = (None, w3) /\
              arrivals w3 = arrivals w /\
              taken (now w3) (pending w3) (pending w) /\
              now w3 = now w + timeout /\
              fifo (arrive w) = []).
Proof.
  unfold world_get.
  pose proof (arrive_arrivals w) as Ha. pose proof (arrive_taken w) as Hs.
  pose proof (arrive_now w) as Hn. pose proof (arrive_head w) as Hh.
  pose proof (N2Z.is_nonneg (tick (arrive w))) as Ht.
  unfold arrivals in *.
  destruct (fifo (arrive w)) as [|s q].
  - destruct (pending (arrive w)) as [|[ts s] p] eqn:Hp.
    + right. eexists. split; [reflexivity|]. cbn [pending fifo now] in *.
      split; [exact Ha|].
      split; [apply (taken_mono (now w)); [unfold timeout; lia | exact Hs]|].
      split; [lia | reflexivity].
    + destruct (ts <=? now (arrive w) + timeout).
      * left. do 2 eexists. split; [reflexivity|]. cbn [pending fifo now] in *.
        split; [rewrite <- Ha; reflexivity|].
        split; [|lia].
        apply (taken_trans _ _ ((ts, s) :: p)).
        -- apply taken_tail. cbn [fst]. lia.
        -- apply (taken_mono (now w)); [lia | exact Hs].
      * right. eexists. split; [reflexivity|]. cbn [pending fifo now] in *.
        split; [exact Ha|].
        split; [apply (taken_mono (now w)); [unfold timeout; lia | exact Hs]|].
        split; [lia | reflexivity].
  - left. do 2 eexists. split; [reflexivity|]. cbn [pending fifo now] in *.
    split; [rewrite <- Ha; reflexivity|].
    split; [apply (taken_mono (now w)); [lia | exact Hs] | lia].
Qed.

(** On a queue that [empty] has just reported non-empty. *)
Lemma world_get_spec_after_empty w :
  fifo (arrive w) <> [] ->
  exists s w3, world_get (arrive w) = (Some s, w3) /\
               arrivals w = s :: arrivals w3 /\
               taken (now w3) (pending w3) (pending w) /\
               now w <= now w3.
Proof.
  intros Hne.
  destruct (world_get_spec (arrive w))
    as [(s & w3 & G & Ha & Hs & Hn)|(w3 & _ & _ & _ & _ & Hq)].
  - exists s, w3. rewrite arrive_arrivals in Ha. rewrite arrive_now in Hn.
    repeat split; try assumption.
    apply (taken_trans _ _ _ _ Hs).
    apply (taken_mono (now w)); [exact Hn | apply arrive_taken].
  - rewrite arrive_idem in Hq. contradiction.
Qed.

(** What holds between the world a loop starts in, its turns and the world
    it returns in. *)
Record traced (end_time : Z) (w : world) (new : list turn) (w' : world) : Prop := {
  tr_order : arrivals w = dequeued new ++ arrivals w';
  tr_taken : taken (now w') (pending w') (pending w);
  tr_timeouts : (timeouts new <= slack end_time w)%nat;
  tr_late_timeouts : late_timeouts new = 0%nat;
  tr_late : end_time <= now w -> forallb late new = true;
  tr_clock : now w <= now w';
  tr_settled : arrive w' = w';
  tr_deadline : end_time <= now w';
  tr_empty : fifo w' = []
}.

Lemma traced_pop end_time w s w3 new w' l :
  arrivals w = s :: arrivals w3 ->
  taken (now w3) (pending w3) (pending w) ->
  now w <= now w3 ->
  (end_time <= now w -> l = true) ->
  traced end_time w3 new w' ->
  traced end_time w (Turn l (Some s) :: new) w'.
Proof.
  intros Ha Hs Hn Hl [T1 T2 T3 T3' T4 T5 T6 T7 T8].
  pose proof (slack_mono end_time w w3 Hn).
  split; try assumption.
  - cbn [dequeued flat_map got app]. fold (dequeued new).
    rewrite Ha, T1. reflexivity.
  - exact (taken_trans _ _ _ _ T2 (taken_mono _ _ _ _ T5 Hs)).
  - rewrite timeouts_cons. cbn [got]. lia.
  - rewrite late_timeouts_cons. cbn [late got]. rewrite andb_false_r. exact T3'.
  - intros Hlate. cbn [forallb late]. rewrite (Hl Hlate), T4 by lia. reflexivity.
  - lia.
Qed.

Lemma traced_timeout end_time w w3 new w' :
  arrivals w3 = arrivals w ->
  taken (now w3) (pending w3) (pending w) ->
  now w < end_time ->
  now w3 = now w + timeout ->
  traced end_time w3 new w' ->
  traced end_time w (Turn false None :: new) w'.
Proof.
  intros Ha Hs Hc Hn [T1 T2 T3 T3' T4 T5 T6 T7 T8].
  pose proof (slack_timeout end_time w w3 Hc Hn).
  split; try assumption.
  - cbn [dequeued flat_map got app]. fold (dequeued new).
    rewrite <- Ha, T1. reflexivity.
  - exact (taken_trans _ _ _ _ T2 (taken_mono _ _ _ _ T5 Hs)).
  - rewrite timeouts_cons. cbn [got]. lia.
  - intros Hlate. lia.
  - unfold timeout in *. lia.
Qed.

(** Every run of the loop that returns is traced. *)
Lemma world_loop_traced (fuel : nat) : forall end_time h log w h' log' w',
  collector_loop fuel end_time h log w = Some (h', log', w') ->
  exists new, log' = log ++ new /\ traced end_time w new w'.
Proof.
  induction fuel as [|fuel IH]; intros end_time h log w h' log' w' Hrun;
    [discriminate|].
  cbn [collector_loop time_time world_env world_time] in Hrun.
  destruct (now w <? end_time) eqn:C.
  - apply Z.ltb_lt in C. cbn [queue_get world_env negb] in Hrun.
    destruct (world_get_spec w)
      as [(s & w3 & G & Ha & Hs & Hn)|(w3 & G & Ha & Hs & Hn & _)];
      rewrite G in Hrun.
    + destruct (encode s) as [bytes|];
        apply IH in Hrun; destruct Hrun as (new & -> & Htr);
        exists (Turn false (Some s) :: new);
        (split; [rewrite <- app_assoc; reflexivity|]);
        apply (traced_pop _ _ _ w3); try assumption; intros; lia.
    + apply IH in Hrun. destruct Hrun as (new & -> & Htr).
      exists (Turn false None :: new).
      split; [rewrite <- app_assoc; reflexivity|].
      apply (traced_timeout _ _ w3); assumption.
  - apply Z.ltb_ge in C. cbn [queue_empty world_env world_empty negb] in Hrun.
    destruct (fifo (arrive w)) as [|s0 q0] eqn:F; cbn [negb] in Hrun.
    + injection Hrun as <- <- <-. exists []. rewrite app_nil_r.
      split; [reflexivity|].
      split; cbn [dequeued flat_map app timeouts late_timeouts filter length forallb];
        rewrite ?arrive_arrivals, ?arrive_now, ?arrive_idem;
        try reflexivity; try assumption; try lia.
      apply arrive_taken.
    + cbn [queue_get world_env] in Hrun.
      destruct (world_get_spec_after_empty w) as (s & w3 & G & Ha & Hs & Hn);
        [rewrite F; discriminate|].
      rewrite G in Hrun.
      destruct (encode s) as [bytes|];
        apply IH in Hrun; destruct Hrun as (new & -> & Htr);
        exists (Turn true (Some s) :: new);
        (split; [rewrite <- app_assoc; reflexivity|]);
        apply (traced_pop _ _ _ w3); try assumption; intros; reflexivity.
Qed.

Lemma world_collector_traced fuel final_result run_time (w : world) res log w' :
  entropy_collector fuel final_result run_time w = Some (res, log, w') ->
  traced (now w + run_time) w log w'.
Proof.
  unfold entropy_collector. cbn [time_time world_env world_time].
  destruct (collector_loop fuel (now w + run_time) new [] w)
    as [[[h l] w2]|] eqn:Hrun; [|discriminate].
  intros H. injection H as <- <- <-.
  destruct (world_loop_traced _ _ _ _ _ _ _ _ Hrun) as (l' & -> & Htr).
  exact Htr.
Qed.

End Trace.

From Stdlib Require Import Sorted.

Import Trace.

(** The [put]s of a world are listed in time order. *)
Definition time_ordered (p : list (Z * pystr)) : Prop :=
  StronglySorted (fun a b => fst a <= fst b) p.

Lemma time_ordered_app l l2 : time_ordered (l ++ l2) -> time_ordered l2.
Proof.
  induction l as [|a l IH]; intros H; [exact H|].
  apply IH. cbn [app] in H. apply StronglySorted_inv in H. exact (proj1 H).
Qed.

Lemma time_ordered_later t p :
  time_ordered p ->
  match p with (ts, _) :: _ => t < ts | [] => True end ->
  Forall (fun a => t < fst a) p.
Proof.
  intros Hs Hh. destruct p as [|[ts s] p]; [constructor|].
  apply StronglySorted_inv in Hs. destruct Hs as [_ Hall].
  constructor; [exact Hh|].
  apply Forall_forall. intros a Ha.
  pose proof (proj1 (Forall_forall _ _) Hall a Ha) as Hle.
  cbn [fst] in *. lia.
Qed.

(** A queue holding "a", a string with a lone surrogate, "b" and "c". *)
Definition surrogate_world : world :=
  World 0 0 [] [of_string "a"; [55357%N]; of_string "b"; of_string "c"].

(** Samples whose [encode] does not raise. *)
Definition encodable (s : pystr) : bool :=
  match encode s with Some _ => true | None => false end.

(** ** X1: samples that cannot be encoded *)

(** X1. A dequeued sample whose [encode('utf-8')] raises is dropped by the
    bare [except]: the digest is the hash of the encodings of the other
    dequeued samples, as if that sample had never been in the queue. *)
Theorem unencodable_samples_leave_no_trace
    (W : Type) (E : Env W) fuel final_result run_time (w : W) res log w' :
  entropy_collector fuel final_result run_time w = Some (res, log, w') ->
  exists payloads,
    map encode (filter encodable (dequeued log)) = map Some payloads /\
    res = final_result ++ [hex (sha256 (concat payloads))].
Proof.
  intros Hrun. exists (encoded (dequeued log)). split.
  - induction (dequeued log) as [|s l IH]; [reflexivity|].
    cbn [filter encoded flat_map]. unfold encodable at 1.
    destruct (encode s) as [b|] eqn:Es; cbn [app map].
    + rewrite Es. f_equal. exact IH.
    + exact IH.
  - exact (entropy_collector_digest _ _ _ _ _ _ _ Hrun).
Qed.

Lemma unencodable_samples_leave_no_trace_witness :
  exists res log w',
    entropy_collector 60 [] 200 surrogate_world = Some (res, log, w') /\
    length (dequeued log) = 4%nat /\
    filter encodable (dequeued log) = [of_string "a"; of_string "b"; of_string "c"] /\
    res = ["ba7816bf8f01cfea414140de5dae2223b00361a396177a9cb410ff61f20015ad"%string] /\
    exists payloads,
      map encode (filter encodable (dequeued log)) = map Some payloads /\
      res = [] ++ [hex (sha256 (concat payloads))].
Proof.
  let r := eval vm_compute in (entropy_collector 60 [] 200 surrogate_world) in
  match r with
  | Some (?res, ?log, ?w') => exists res, log, w'
  end.
  split; [vm_compute; reflexivity|].
  split; [vm_compute; reflexivity|].
  split; [vm_compute; reflexivity|].
  split; [vm_compute; reflexivity|].
  eapply (unencodable_samples_leave_no_trace world _ 60%nat [] 200 surrogate_world).
  vm_compute. reflexivity.
Defined.

(** ** X2: nothing lost, nothing twice, in order *)

(** X2. The collector dequeues a prefix of the samples in the order the
    queue holds them and they are put: what it dequeued followed by what is
    still to be put is the sequence it started with, and the queue is empty
    when it returns. *)
Theorem collector_dequeues_in_put_order
    (w : world) fuel final_result run_time res log w' :
  entropy_collector fuel final_result run_time w = Some (res, log, w') ->
  fifo w ++ map snd (pending w) = dequeued log ++ map snd (pending w') /\
  fifo w' = [].
Proof.
  intros Hrun.
  destruct (world_collector_traced _ _ _ _ _ _ _ Hrun)
    as [T1 _ _ _ _ _ _ _ T8].
  unfold arrivals in T1. rewrite T8 in T1. cbn [app] in T1.
  split; assumption.
Qed.

Lemma collector_dequeues_in_put_order_witness :
  exists res log w',
    entropy_collector 60 [] 100 abc_spread_world = Some (res, log, w') /\
    dequeued log = [of_string "a"] /\
    map snd (pending w') = [of_string "b"; of_string "c"] /\
    (fifo abc_spread_world ++ map snd (pending abc_spread_world) =
       dequeued log ++ map snd (pending w') /\
     fifo w' = []).
Proof.
  let r := eval vm_compute in (entropy_collector 60 [] 100 abc_spread_world) in
  match r with
  | Some (?res, ?log, ?w') => exists res, log, w'
  end.
  split; [vm_compute; reflexivity|].
  split; [vm_compute; reflexivity|].
  split; [vm_compute; reflexivity|].
  eapply (collector_dequeues_in_put_order abc_spread_world 60%nat [] 100).
  vm_compute. reflexivity.
Defined.

(** ** X3: the state at return *)

Lemma filter_all (f : Z * pystr -> bool) l :
  Forall (fun a => f a = true) l -> filter f l = l.
Proof.
  induction 1 as [|a l Ha Hl IH]; [reflexivity|].
  cbn [filter]. rewrite Ha, IH. reflexivity.
Qed.

Lemma filter_none (f : Z * pystr -> bool) l :
  Forall (fun a => f a = false) l -> filter f l = [].
Proof.
  induction 1 as [|a l Ha Hl IH]; [reflexivity|].
  cbn [filter]. rewrite Ha, IH. reflexivity.
Qed.

Lemma filter_taken t (l p : list (Z * pystr)) :
  Forall (fun a => fst a <= t) l ->
  Forall (fun a => t < fst a) p ->
  filter (fun a => fst a <=? t) (l ++ p) = l /\
  filter (fun a => t <? fst a) (l ++ p) = p.
Proof.
  intros Hl Hp. rewrite !filter_app. split.
  - rewrite (filter_all _ l), (filter_none _ p), app_nil_r; [reflexivity | |].
    + eapply Forall_impl; [|exact Hp]. intros a Ha. apply Z.leb_gt. exact Ha.
    + eapply Forall_impl; [|exact Hl]. intros a Ha. apply Z.leb_le. exact Ha.
  - rewrite (filter_none _ l), (filter_all _ p); [reflexivity | |].
    + eapply Forall_impl; [|exact Hp]. intros a Ha. apply Z.ltb_lt. exact Ha.
    + eapply Forall_impl; [|exact Hl]. intros a Ha. apply Z.ltb_ge. exact Ha.
Qed.

Lemma world_collector_exact (w : world) fuel final_result run_time res log w' :
  entropy_collector fuel final_result run_time w = Some (res, log, w') ->
  time_ordered (pending w) ->
  now w + run_time <= now w' /\
  dequeued log =
    fifo w ++ map snd (filter (fun a => fst a <=? now w') (pending w)) /\
  pending w' = filter (fun a => now w' <? fst a) (pending w) /\
  fifo w' = [].
Proof.
  intros Hrun Hsorted.
  destruct (world_collector_traced _ _ _ _ _ _ _ Hrun)
    as [T1 (l & Hl & Hall) _ _ _ _ T6 T7 T8].
  assert (Hlater : Forall (fun a => now w' < fst a) (pending w')).
  { apply time_ordered_later.
    - apply (time_ordered_app l). rewrite <- Hl. exact Hsorted.
    - pose proof (arrive_head w') as Hh. rewrite T6 in Hh. exact Hh. }
  destruct (filter_taken (now w') l (pending w') Hall Hlater) as [F1 F2].
  split; [exact T7|].
  rewrite Hl, F1, F2.
  split; [|split; [reflexivity | exact T8]].
  unfold arrivals in T1. rewrite T8, Hl, map_app, app_assoc in T1.
  cbn [app] in T1. apply app_inv_tail in T1. symmetry. exact T1.
Qed.

(** X3. When the collector returns, its deadline has passed and it has
    dequeued exactly what was in the queue at the start and what was put by
    the moment it returns, the [put]s being in time order: the queue is
    empty, and only the [put]s of the future are left. *)
Theorem collector_dequeues_exactly_the_puts_so_far
    (w : world) fuel final_result run_time res log w' :
  entropy_collector fuel final_result run_time w = Some (res, log, w') ->
  time_ordered (pending w) ->
  now w + run_time <= now w' /\
  dequeued log =
    fifo w ++ map snd (filter (fun a => fst a <=? now w') (pending w)) /\
  pending w' = filter (fun a => now w' <? fst a) (pending w) /\
  fifo w' = [].
Proof. exact (world_collector_exact w fuel final_result run_time res log w'). Qed.

Lemma collector_dequeues_exactly_the_puts_so_far_witness :
  exists res log w',
    entropy_collector 60 [] 100 abc_spread_world = Some (res, log, w') /\
    time_ordered (pending abc_spread_world) /\
    now w' = 122 /\
    dequeued log = [of_string "a"] /\
    (now abc_spread_world + 100 <= now w' /\
     dequeued log =
       fifo abc_spread_world ++
       map snd (filter (fun a => fst a <=? now w') (pending abc_spread_world)) /\
     pending w' = filter (fun a => now w' <? fst a) (pending abc_spread_world) /\
     fifo w' = []).
Proof.
  let r := eval vm_compute in (entropy_collector 60 [] 100 abc_spread_world) in
  match r with
  | Some (?res, ?log, ?w') => exists res, log, w'
  end.
  assert (Hs : time_ordered (pending abc_spread_world)).
  { unfold time_ordered. simpl. repeat constructor; simpl; lia. }
  split; [vm_compute; reflexivity|].
  split; [exact Hs|].
  split; [vm_compute; reflexivity|].
  split; [vm_compute; reflexivity|].
  eapply (collector_dequeues_exactly_the_puts_so_far abc_spread_world 60%nat [] 100).
  - vm_compute. reflexivity.
  - exact Hs.
Defined.

(** ** X4: how often [Empty] is swallowed *)

(** X4. [queue.get] times out only before the deadline, and at most once
    per tenth of a second of the window (rounded up): a window of [D]
    milliseconds sees at most [ceil(D / 100)] timeouts, and none when
    [D <= 0]. Every turn is a pop or a timeout. *)
Theorem collector_timeouts_bounded
    (w : world) fuel final_result run_time res log w' :
  entropy_collector fuel final_result run_time w = Some (res, log, w') ->
  (timeouts log <= Z.to_nat ((run_time + 99) / 100))%nat /\
  late_timeouts log = 0%nat /\
  length log = (length (dequeued log) + timeouts log)%nat.
Proof.
  intros Hrun.
  destruct (world_collector_traced _ _ _ _ _ _ _ Hrun)
    as [_ _ T3 T3' _ _ _ _ _].
  rewrite slack_start in T3. unfold timeout in T3.
  split; [exact T3|]. split; [exact T3'|]. apply length_log.
Qed.

Lemma collector_timeouts_bounded_witness :
  exists res log w',
    entropy_collector 60 [] 400 abc_spread_world = Some (res, log, w') /\
    timeouts log = 4%nat /\
    ((timeouts log <= Z.to_nat ((400 + 99) / 100))%nat /\
     late_timeouts log = 0%nat /\
     length log = (length (dequeued log) + timeouts log)%nat).
Proof.
  let r := eval vm_compute in (entropy_collector 60 [] 400 abc_spread_world) in
  match r with
  | Some (?res, ?log, ?w') => exists res, log, w'
  end.
  split; [vm_compute; reflexivity|].
  split; [vm_compute; reflexivity|].
  eapply (collector_timeouts_bounded abc_spread_world 60%nat [] 400).
  vm_compute. reflexivity.
Defined.

(** ** X5: a window that is zero or negative *)

(** X5. With [run_time <= 0] the collector never waits: every turn finds
    the deadline passed and pops a sample, no [get] times out, and it returns
    as soon as the queue is empty. *)
Theorem nonpositive_window_never_waits
    (w : world) fuel final_result run_time res log w' :
  entropy_collector fuel final_result run_time w = Some (res, log, w') ->
  run_time <= 0 ->
  timeouts log = 0%nat /\
  forallb late log = true /\
  length log = length (dequeued log).
Proof.
  intros Hrun Hneg.
  destruct (world_collector_traced _ _ _ _ _ _ _ Hrun)
    as [_ _ T3 _ T4 _ _ _ _].
  rewrite slack_late in T3 by lia.
  assert (Ht : timeouts log = 0%nat) by lia.
  split; [exact Ht|]. split; [apply T4; lia|].
  rewrite (length_log log), Ht. lia.
Qed.

Lemma nonpositive_window_never_waits_witness :
  exists res log w',
    entropy_collector 60 [] (-5) abc_world = Some (res, log, w') /\
    -5 <= 0 /\
    length log = 3%nat /\
    (timeouts log = 0%nat /\
     forallb late log = true /\
     length log = length (dequeued log)).
Proof.
  let r := eval vm_compute in (entropy_collector 60 [] (-5) abc_world) in
  match r with
  | Some (?res, ?log, ?w') => exists res, log, w'
  end.
  split; [vm_compute; reflexivity|].
  split; [lia|].
  split; [vm_compute; reflexivity|].
  eapply (nonpositive_window_never_waits abc_world 60%nat [] (-5)).
  - vm_compute. reflexivity.
  - lia.
Defined.

(** ** X6: a collector without producers *)






(* ------------------------------------------------------------------ *)
(** ** The generators and their sources *)
(* ------------------------------------------------------------------ *)

(** Draws of [random.random()] a generator makes before its loop. *)
Definition draws_before_loop (f : target) : nat :=
  match f with LogisticMap => 2 | LorenzSystem => 6 | RandomWalk => 0 end.

(** Bytes of [os.urandom] a generator reads in one iteration. *)
Definition bytes_per_step (f : target) : nat :=
  match f with RandomWalk => 8 | _ => 0 end.

(** X7. What a generator thread takes from outside and does, for any number
    of steps [n] (none when [steps <= 0]): [n] clock readings,
    [n] draws of [random.random()] after the 2, 6 or 0 that set it up,
    bytes of [os.urandom] in the random walk only (8 per step), and [n]
    times a sleep of the next draw divided by 10000 followed by one [put] on
    the queue it was given. *)
Theorem generator_sources_and_effects f entropy_pool queue steps o :
  let s := snd (body f entropy_pool queue steps o start) in
  let n := Z.to_nat steps in
  n_rand s = (draws_before_loop f + n)%nat /\
  n_bytes s = (bytes_per_step f * n)%nat /\
  n_clock s = n /\
  exists item : nat -> pystr,
    effects s =
    flat_map (fun k => [Sleep (rand o (draws_before_loop f + k) / 10000.0)%float;
                        Put queue (item k)])
             (seq 0 n).
Proof.
  destruct f; cbn [body draws_before_loop bytes_per_step]; cbv zeta.
  - unfold logistic_map_thread, bind. rewrite logistic_init_run.
    cbn [fst snd]. rewrite logistic_loop_run. cbn [snd n_rand n_bytes n_clock effects app].
    repeat split.
    exists (fun k => logistic_sample (logistic_r o)
                       (logistic_orbit (logistic_r o) (logistic_x0 o) (S k))
                       (perf_counter o k)).
    reflexivity.
  - unfold lorenz_system_thread, bind. rewrite lorenz_init_run.
    cbn [l_sigma l_rho l_beta l_x l_y l_z]. rewrite lorenz_loop_run.
    cbn [snd n_rand n_bytes n_clock effects app].
    repeat split.
    exists (fun k => lorenz_sample (lorenz_sigma o) (lorenz_rho o) (lorenz_beta o)
                       (lorenz_orbit (lorenz_sigma o) (lorenz_rho o) (lorenz_beta o)
                          (lorenz_p0 o) (S k))
                       (perf_counter o k)).
    reflexivity.
  - unfold random_walk_thread. rewrite random_walk_loop_run.
    cbn [snd n_rand n_bytes n_clock effects app start].
    repeat split.
    exists (fun k => walk_sample (walk_position o 0 0.0%float (S k)) (walk_value o 0 k)
                       (perf_counter o k)).
    reflexivity.
Qed.

(* ------------------------------------------------------------------ *)
(** ** The text of the samples *)
(* ------------------------------------------------------------------ *)

Module SampleText.
Import Utf8Facts.

(** A Python [str] all of whose code points are below 128. *)
Definition ascii_only (s : pystr) : bool := forallb (fun c => (c <? 128)%N) s.

Lemma byte_of_N_ascii (c : ascii) :
  (N_of_ascii c <? 128)%N = true -> byte_of_N (N_of_ascii c) = byte_of_ascii c.
Proof.
  intros H. pose proof (encode_char_ascii c H) as E.
  unfold encode_char in E. rewrite H in E. injection E as E. exact E.
Qed.

Lemma ascii_only_of_string (s : string) : ascii_only (of_string s) = is_ascii s.
Proof.
  unfold ascii_only, of_string, is_ascii.
  induction (list_ascii_of_string s) as [|c l IH]; [reflexivity|].
  cbn [map forallb]. rewrite IH. reflexivity.
Qed.

(** A [str] of ASCII characters encodes to one byte per character. *)
Lemma encode_ascii_only (s : pystr) :
  ascii_only s = true -> encode s = Some (map byte_of_N s).
Proof.
  induction s as [|c s IH]; [reflexivity|].
  cbn [ascii_only forallb]. intros H. apply andb_true_iff in H as [Hc Hs].
  cbn [encode map]. unfold encode_char. rewrite Hc, (IH Hs). reflexivity.
Qed.

Lemma list_ascii_app (a b : string) :
  list_ascii_of_string (a ++ b) = (list_ascii_of_string a ++ list_ascii_of_string b)%list.
Proof.
  induction a as [|c a IH]; [reflexivity|].
  cbn [append list_ascii_of_string app]. rewrite IH. reflexivity.
Qed.

Lemma is_ascii_app (a b : string) :
  is_ascii (a ++ b) = is_ascii a && is_ascii b.
Proof. unfold is_ascii. rewrite list_ascii_app, forallb_app. reflexivity. Qed.

Lemma is_ascii_cons (c : ascii) (s : string) :
  is_ascii (String c s) = (N_of_ascii c <? 128)%N && is_ascii s.
Proof. reflexivity. Qed.

Lemma is_ascii_substring (s : string) : forall n m,
  is_ascii s = true -> is_ascii (substring n m s) = true.
Proof.
  induction s as [|c s IH]; intros n m H.
  - destruct n, m; reflexivity.
  - rewrite is_ascii_cons in H. apply andb_true_iff in H as [Hc Hs].
    destruct n as [|n]; [destruct m as [|m]|]; cbn [substring].
    + reflexivity.
    + rewrite is_ascii_cons, Hc, (IH 0%nat m Hs). reflexivity.
    + apply IH. exact Hs.
Qed.

Lemma string_of_uint_ascii (d : Decimal.uint) :
  is_ascii (NilEmpty.string_of_uint d) = true.
Proof.
  induction d; cbn [NilEmpty.string_of_uint]; try reflexivity;
    rewrite is_ascii_cons, IHd; reflexivity.
Qed.

(** [str(n)] is made of digits and a sign. *)
Lemma str_of_Z_ascii (z : Z) : is_ascii (str_of_Z z) = true.
Proof.
  unfold str_of_Z, NilZero.string_of_int, NilZero.string_of_uint.
  destruct (Z.to_int z) as [d|d].
  - destruct d; try reflexivity; apply string_of_uint_ascii.
  - rewrite is_ascii_cons. cbn [andb].
    destruct d; try reflexivity; apply string_of_uint_ascii.
Qed.

Lemma fixed6_ascii (n : Z) : is_ascii (fixed6 n) = true.
Proof.
  unfold fixed6. rewrite !is_ascii_app, str_of_Z_ascii.
  rewrite (is_ascii_substring _ 1 6 (str_of_Z_ascii _)). reflexivity.
Qed.

(** The format [.6f] writes ASCII, whatever the float. *)
Lemma fmt6_ascii (x : float) : is_ascii (fmt6 x) = true.
Proof.
  unfold fmt6. destruct (Prim2SF x) as [s|s| |s m e].
  - destruct s; reflexivity.
  - destruct s; reflexivity.
  - reflexivity.
  - rewrite is_ascii_app, fixed6_ascii. destruct s; reflexivity.
Qed.

Lemma logistic_sample_ascii r x t : ascii_only (logistic_sample r x t) = true.
Proof.
  unfold logistic_sample. rewrite ascii_only_of_string.
  rewrite !is_ascii_app, !fmt6_ascii, str_of_Z_ascii. reflexivity.
Qed.

Lemma lorenz_sample_ascii sigma rho beta p t :
  ascii_only (lorenz_sample sigma rho beta p t) = true.
Proof.
  destruct p as [[x y] z]. unfold lorenz_sample. rewrite ascii_only_of_string.
  rewrite !is_ascii_app, !fmt6_ascii, str_of_Z_ascii. reflexivity.
Qed.

Lemma walk_sample_ascii position value t :
  ascii_only (walk_sample position value t) = true.
Proof.
  unfold walk_sample. rewrite ascii_only_of_string.
  rewrite !is_ascii_app, !fmt6_ascii, !str_of_Z_ascii. reflexivity.
Qed.

Lemma puts_sends (es : list effect) : puts es = map snd (sends es).
Proof.
  induction es as [|e es IH]; [reflexivity|].
  unfold puts, sends in *. cbn [flat_map]. rewrite map_app, IH.
  destruct e; reflexivity.
Qed.

(** Every item a generator sends is ASCII. *)
Lemma body_sends_ascii f entropy_pool queue steps o :
  Forall (fun s : nat * pystr => ascii_only (snd s) = true)
         (sends (run (body f entropy_pool queue steps) o)).
Proof.
  destruct f; cbn [body];
    [rewrite logistic_sends | rewrite lorenz_sends | rewrite random_walk_sends];
    apply Forall_map, Forall_forall; intros k _; cbn [snd].
  - apply logistic_sample_ascii.
  - apply lorenz_sample_ascii.
  - apply walk_sample_ascii.
Qed.

End SampleText.

Import SampleText.

(** X8. Every sample a generator puts on the queue is pure ASCII, whatever
    the floats and the clock readings are (also for [nan] and [inf]), so its
    [encode('utf-8')] in the collector cannot raise and gives one byte per
    character. *)
Theorem generator_samples_are_ascii f entropy_pool queue steps o :
  Forall (fun s => ascii_only s = true /\ encode s = Some (map byte_of_N s))
         (puts (run (body f entropy_pool queue steps) o)).
Proof.
  rewrite puts_sends. apply Forall_map.
  eapply Forall_impl; [|apply body_sends_ascii].
  intros a Ha. cbn beta in Ha. split; [exact Ha|].
  apply encode_ascii_only. exact Ha.
Qed.

(* ------------------------------------------------------------------ *)
(** ** The queue of the system *)
(* ------------------------------------------------------------------ *)

(** [l] is made of the elements of [l1] and of [l2], each in its order. *)
Inductive interleaved {A : Type} : list A -> list A -> list A -> Prop :=
| interleaved_nil : interleaved [] [] []
| interleaved_left a l1 l2 l :
    interleaved l1 l2 l -> interleaved (a :: l1) l2 (a :: l)
| interleaved_right a l1 l2 l :
    interleaved l1 l2 l -> interleaved l1 (a :: l2) (a :: l).

Module QueueFacts.

Lemma interleaved_nil_l {A} (l : list A) : interleaved [] l l.
Proof. induction l; constructor; assumption. Qed.

Lemma interleaved_nil_r {A} (l : list A) : interleaved l [] l.
Proof. induction l; constructor; assumption. Qed.

Lemma interleaved_map {A B} (f : A -> B) (l1 l2 l : list A) :
  interleaved l1 l2 l -> interleaved (map f l1) (map f l2) (map f l).
Proof. induction 1; cbn [map]; constructor; assumption. Qed.

Lemma merge_interleaved (l1 : list arrival) : forall l2,
  interleaved l1 l2 (merge l1 l2).
Proof.
  induction l1 as [|a1 r1 IH1]; intros l2.
  - destruct l2; [constructor | apply interleaved_nil_l].
  - induction l2 as [|a2 r2 IH2]; [apply interleaved_nil_r|].
    cbn [merge]. destruct (fst a1 <=? fst a2).
    + constructor. apply IH1.
    + constructor. exact IH2.
Qed.

(** The items of a timed list, without the times. *)
Lemma timed_items t gap k (items : list (nat * pystr)) :
  map (fun a : arrival => snd (snd a)) (timed t gap k items) = map snd items.
Proof.
  revert t k. induction items as [|s l IH]; intros t k; [reflexivity|].
  cbn [timed map snd]. rewrite IH. reflexivity.
Qed.

Lemma for_queue_all q (l : list arrival) :
  all_for q l -> for_queue q l = map (fun a => (fst a, snd (snd a))) l.
Proof.
  induction 1 as [|a l Ha Hl IH]; [reflexivity|].
  cbn [for_queue flat_map map]. rewrite Ha, Nat.eqb_refl. cbn [app].
  f_equal. exact IH.
Qed.

Lemma timed_Forall (P : pystr -> Prop) (items : list (nat * pystr)) : forall t gap k,
  Forall (fun s => P (snd s)) items ->
  Forall (fun a : arrival => P (snd (snd a))) (timed t gap k items).
Proof.
  induction items as [|s l IH]; intros t gap k H; cbn [timed]; [constructor|].
  inversion H as [|? ? Hs Hl]. constructor; [exact Hs|]. apply IH. exact Hl.
Qed.

(** The [put]s of one thread come in time order. *)
Lemma timed_bound (items : list (nat * pystr)) : forall t gap k,
  Forall (fun a : arrival => t <= fst a) (timed t gap k items).
Proof.
  induction items as [|s l IH]; intros t gap k; cbn [timed]; [constructor|].
  pose proof (N2Z.is_nonneg (gap k)) as Hg.
  constructor; [cbn [fst]; lia|].
  eapply Forall_impl; [|apply IH]. intros a Ha. cbn beta in Ha. lia.
Qed.

Definition by_time (l : list arrival) : Prop :=
  StronglySorted (fun a b : arrival => fst a <= fst b) l.

Lemma timed_by_time (items : list (nat * pystr)) : forall t gap k,
  by_time (timed t gap k items).
Proof.
  induction items as [|s l IH]; intros t gap k; cbn [timed]; constructor.
  - apply IH.
  - apply timed_bound.
Qed.

Lemma merge_by_time (l1 : list arrival) : forall l2,
  by_time l1 -> by_time l2 -> by_time (merge l1 l2).
Proof.
  induction l1 as [|a1 r1 IH1]; intros l2 H1 H2.
  - destruct l2; exact H2.
  - induction l2 as [|a2 r2 IH2]; [exact H1|].
    cbn [merge].
    pose proof (StronglySorted_inv H1) as [S1 F1].
    pose proof (StronglySorted_inv H2) as [S2 F2].
    destruct (fst a1 <=? fst a2) eqn:C.
    + apply Z.leb_le in C. constructor; [apply IH1; assumption|].
      apply Scenarios.merge_Forall; [exact F1|].
      constructor; [exact C|].
      eapply Forall_impl; [|exact F2]. intros a Ha. cbn beta in Ha. lia.
    + apply Z.leb_gt in C. constructor; [apply IH2; exact S2|].
      change (Forall (fun b : arrival => fst a2 <= fst b) (merge (a1 :: r1) r2)).
      apply Scenarios.merge_Forall; [|exact F2].
      constructor; [lia|].
      eapply Forall_impl; [|exact F1]. intros a Ha. cbn beta in Ha. lia.
Qed.

Lemma map_time_ordered (l : list arrival) :
  by_time l -> time_ordered (map (fun a => (fst a, snd (snd a))) l).
Proof.
  induction 1 as [|a l Hs IH Ha]; cbn [map]; constructor.
  - exact IH.
  - apply Forall_map. exact Ha.
Qed.

(** The [put]s of the three generators as the machine schedules them. *)
Definition production (entropy_pool : pyobj) (sys : system) (f : target) (i : nat)
  : list arrival :=
  timed (started_at sys i) (gaps sys i) 0
        (sends (run (body f entropy_pool 0 10000) (oracles sys i))).

Lemma generators_started_merge entropy_pool sys :
  m_pending (generators_started entropy_pool sys) =
  merge (merge (production entropy_pool sys LogisticMap 1)
               (production entropy_pool sys LorenzSystem 2))
        (production entropy_pool sys RandomWalk 3).
Proof.
  unfold generators_started. rewrite !thread_start_generator_pending.
  change (m_pending (snd (queue_new boot))) with (@nil arrival).
  unfold production.
  destruct (timed (started_at sys 1) (gaps sys 1) 0
              (sends (run (body LogisticMap entropy_pool 0 10000) (oracles sys 1))));
    reflexivity.
Qed.

Lemma production_items entropy_pool sys f i :
  map (fun a : arrival => snd (snd a)) (production entropy_pool sys f i) =
  puts (run (body f entropy_pool 0 10000) (oracles sys i)).
Proof. unfold production. rewrite timed_items, puts_sends. reflexivity. Qed.

Lemma production_logistic entropy_pool sys :
  map (fun a : arrival => snd (snd a)) (production entropy_pool sys LogisticMap 1) =
  puts (run (logistic_map_thread entropy_pool 0 10000) (oracles sys 1)).
Proof. unfold production. cbn [body]. rewrite timed_items, puts_sends. reflexivity. Qed.

Lemma production_lorenz entropy_pool sys :
  map (fun a : arrival => snd (snd a)) (production entropy_pool sys LorenzSystem 2) =
  puts (run (lorenz_system_thread entropy_pool 0 10000) (oracles sys 2)).
Proof. unfold production. cbn [body]. rewrite timed_items, puts_sends. reflexivity. Qed.

Lemma production_random_walk entropy_pool sys :
  map (fun a : arrival => snd (snd a)) (production entropy_pool sys RandomWalk 3) =
  puts (run (random_walk_thread entropy_pool 0 10000) (oracles sys 3)).
Proof. unfold production. cbn [body]. rewrite timed_items, puts_sends. reflexivity. Qed.

Lemma collector_world_pending entropy_pool sys :
  pending (collector_world entropy_pool sys) =
  map (fun a => (fst a, snd (snd a))) (m_pending (generators_started entropy_pool sys)).
Proof.
  unfold collector_world. cbn [pending].
  apply for_queue_all. exact (proj1 (generators_started_pending entropy_pool sys)).
Qed.

Lemma collector_world_arrivals entropy_pool sys :
  arrivals (collector_world entropy_pool sys) =
  map (fun a : arrival => snd (snd a)) (m_pending (generators_started entropy_pool sys)).
Proof.
  unfold arrivals. rewrite collector_world_fifo, collector_world_pending.
  cbn [app]. rewrite map_map. reflexivity.
Qed.

Lemma collector_world_time_ordered entropy_pool sys :
  time_ordered (pending (collector_world entropy_pool sys)).
Proof.
  rewrite collector_world_pending. apply map_time_ordered.
  rewrite generators_started_merge.
  apply merge_by_time; [apply merge_by_time|]; apply timed_by_time.
Qed.

Lemma collector_world_ascii entropy_pool sys :
  Forall (fun s => ascii_only s = true) (arrivals (collector_world entropy_pool sys)).
Proof.
  rewrite collector_world_arrivals. apply Forall_map.
  rewrite generators_started_merge.
  apply Scenarios.merge_Forall; [apply Scenarios.merge_Forall|];
    apply (timed_Forall (fun s => ascii_only s = true)); apply body_sends_ascii.
Qed.

(** What was dequeued was in the queue or put later. *)
Lemma dequeued_Forall (P : pystr -> Prop) (w : world) fuel final_result run_time
    res log w' :
  entropy_collector fuel final_result run_time w = Some (res, log, w') ->
  Forall P (arrivals w) -> Forall P (dequeued log).
Proof.
  intros Hrun Ha.
  pose proof (tr_order _ _ _ _ (world_collector_traced _ _ _ _ _ _ _ Hrun)) as T1.
  rewrite T1 in Ha. apply Forall_app in Ha. exact (proj1 Ha).
Qed.

Lemma encoded_ascii (chunks : list pystr) :
  Forall (fun s => ascii_only s = true) chunks ->
  encoded chunks = map (map byte_of_N) chunks.
Proof.
  induction 1 as [|s l Hs Hl IH]; [reflexivity|].
  cbn [encoded flat_map map]. rewrite (encode_ascii_only s Hs). cbn [app].
  f_equal. exact IH.
Qed.

End QueueFacts.

Import QueueFacts.

(** ** X9: nothing dequeued is skipped in the system *)

(** X9. In [run_chaotic_system] the bare [except] never drops a sample:
    every dequeued sample encodes, and the returned digest is the SHA-256 of
    the characters of all dequeued samples, taken as bytes, in dequeue
    order. *)
Theorem system_hashes_every_dequeued_sample sys total_time fuel :
  (enough total_time <= fuel)%nat ->
  exists d m,
    run_chaotic_system sys fuel total_time = Some (Some d, m) /\
    Forall (fun s => encode s = Some (map byte_of_N s)) (dequeued (m_log m)) /\
    d = hex (sha256 (concat (map (map byte_of_N) (dequeued (m_log m))))).
Proof.
  intros Hfuel.
  destruct (run_with_pool_returns PyNone sys total_time fuel Hfuel)
    as (log & w' & Hcol & _ & Hrun).
  cbv zeta in Hcol, Hrun.
  pose proof (dequeued_Forall _ _ _ _ _ _ _ _ Hcol (collector_world_ascii PyNone sys))
    as Ha.
  rewrite run_chaotic_system_eq.
  eexists. eexists. split; [exact Hrun|].
  unfold final_machine. cbn [m_log]. split.
  - eapply Forall_impl; [|exact Ha]. intros s Hs. apply encode_ascii_only. exact Hs.
  - rewrite (encoded_ascii _ Ha). reflexivity.
Qed.

Lemma system_hashes_every_dequeued_sample_witness :
  (enough 5000 <= enough 5000)%nat /\
  exists d m,
    run_chaotic_system quiet_system (enough 5000) 5000 = Some (Some d, m) /\
    Forall (fun s => encode s = Some (map byte_of_N s)) (dequeued (m_log m)) /\
    d = hex (sha256 (concat (map (map byte_of_N) (dequeued (m_log m))))).
Proof.
  split; [apply le_n|].
  exact (system_hashes_every_dequeued_sample quiet_system 5000 (enough 5000) (le_n _)).
Defined.

(** ** X10: each generator's samples keep their order *)

(** X10. What the collector of [run_chaotic_system] dequeues is the
    beginning of an interleaving of the three generators' sample sequences:
    the samples of each generator are dequeued in the order it produced
    them, none twice and none skipped before a later one. *)
Theorem system_keeps_each_generators_order sys total_time fuel :
  (enough total_time <= fuel)%nat ->
  exists d m l12 rest,
    run_chaotic_system sys fuel total_time = Some (Some d, m) /\
    interleaved (puts (run (logistic_map_thread PyNone 0 10000) (oracles sys 1)))
                (puts (run (lorenz_system_thread PyNone 0 10000) (oracles sys 2)))
                l12 /\
    interleaved l12
                (puts (run (random_walk_thread PyNone 0 10000) (oracles sys 3)))
                (dequeued (m_log m) ++ rest).
Proof.
  intros Hfuel.
  destruct (run_with_pool_returns PyNone sys total_time fuel Hfuel)
    as (log & w' & Hcol & _ & Hrun).
  cbv zeta in Hcol, Hrun.
  pose proof (tr_order _ _ _ _ (world_collector_traced _ _ _ _ _ _ _ Hcol)) as T1.
  rewrite collector_world_arrivals, generators_started_merge in T1.
  rewrite run_chaotic_system_eq.
  eexists. eexists.
  exists (map (fun a : arrival => snd (snd a))
            (merge (production PyNone sys LogisticMap 1)
                   (production PyNone sys LorenzSystem 2))).
  exists (arrivals w').
  split; [exact Hrun|].
  unfold final_machine. cbn [m_log].
  split.
  - rewrite <- (production_logistic PyNone sys).
    rewrite <- (production_lorenz PyNone sys).
    apply interleaved_map, merge_interleaved.
  - rewrite <- T1.
    rewrite <- (production_random_walk PyNone sys).
    apply interleaved_map, merge_interleaved.
Qed.

Lemma system_keeps_each_generators_order_witness :
  (enough 5000 <= enough 5000)%nat /\
  exists d m l12 rest,
    run_chaotic_system quiet_system (enough 5000) 5000 = Some (Some d, m) /\
    interleaved (puts (run (logistic_map_thread PyNone 0 10000) (oracles quiet_system 1)))
                (puts (run (lorenz_system_thread PyNone 0 10000) (oracles quiet_system 2)))
                l12 /\
    interleaved l12
                (puts (run (random_walk_thread PyNone 0 10000) (oracles quiet_system 3)))
                (dequeued (m_log m) ++ rest).
Proof.
  split; [apply le_n|].
  exact (system_keeps_each_generators_order quiet_system 5000 (enough 5000) (le_n _)).
Defined.

(** ** X11: the digest covers the puts made until the collector returns *)

Lemma filter_map_time t (l : list arrival) :
  filter (fun a : Z * pystr => fst a <=? t) (map (fun a => (fst a, snd (snd a))) l) =
  map (fun a => (fst a, snd (snd a))) (filter (fun a : arrival => fst a <=? t) l).
Proof.
  induction l as [|a l IH]; [reflexivity|].
  cbn [map filter fst]. destruct (fst a <=? t); cbn [map]; rewrite IH; reflexivity.
Qed.

(** X11. [run_chaotic_system] returns after its window has passed, and the
    samples in its digest are exactly the ones the three generators put up
    to the moment the collector returned: no [put] made by then is left
    out, none made later is in. *)
Theorem system_digest_covers_puts_until_return sys total_time fuel :
  (enough total_time <= fuel)%nat ->
  exists d m w',
    run_chaotic_system sys fuel total_time = Some (Some d, m) /\
    m_world m = Some w' /\
    clock sys + total_time <= now w' /\
    dequeued (m_log m) =
      map (fun a : arrival => snd (snd a))
          (filter (fun a : arrival => fst a <=? now w') (m_pending m)).
Proof.
  intros Hfuel.
  destruct (run_with_pool_returns PyNone sys total_time fuel Hfuel)
    as (log & w' & Hcol & _ & Hrun).
  cbv zeta in Hcol, Hrun.
  destruct (world_collector_exact _ _ _ _ _ _ _ Hcol
              (collector_world_time_ordered PyNone sys)) as (Hlate & Hd & _ & _).
  rewrite run_chaotic_system_eq.
  exists (hex (sha256 (concat (encoded (dequeued log))))).
  exists (final_machine PyNone sys total_time
            [hex (sha256 (concat (encoded (dequeued log))))] log w').
  exists w'. split; [exact Hrun|].
  split; [reflexivity|]. split; [exact Hlate|].
  change (dequeued log =
          map (fun a : arrival => snd (snd a))
              (filter (fun a : arrival => fst a <=? now w')
                      (m_pending (generators_started PyNone sys)))).
  rewrite Hd, collector_world_pending, filter_map_time, map_map.
  reflexivity.
Qed.

Lemma system_digest_covers_puts_until_return_witness :
  (enough 5000 <= enough 5000)%nat /\
  exists d m w',
    run_chaotic_system quiet_system (enough 5000) 5000 = Some (Some d, m) /\
    m_world m = Some w' /\
    clock quiet_system + 5000 <= now w' /\
    dequeued (m_log m) =
      map (fun a : arrival => snd (snd a))
          (filter (fun a : arrival => fst a <=? now w') (m_pending m)).
Proof.
  split; [apply le_n|].
  exact (system_digest_covers_puts_until_return quiet_system 5000 (enough 5000) (le_n _)).
Defined.

(* ------------------------------------------------------------------ *)
(** ** More on the collector *)
(* ------------------------------------------------------------------ *)

(** Two queues with the same characters cut into samples differently. *)
Definition ab_c_world : world := World 0 0 [] [of_string "ab"; of_string "c"].
Definition a_bc_world : world := World 0 0 [] [of_string "a"; of_string "bc"].

(** ** X12: sample boundaries are not hashed *)

(** X12. The digest depends on the dequeued samples only through the
    concatenation of their bytes: nothing marks where one sample ends and
    the next begins, so runs whose samples are cut differently but
    concatenate to the same bytes append the same digest. *)
Theorem digest_ignores_sample_boundaries
    (W1 W2 : Type) (E1 : Env W1) (E2 : Env W2)
    fuel1 fuel2 final_result run_time1 run_time2 (w1 : W1) (w2 : W2)
    res1 res2 log1 log2 w1' w2' :
  entropy_collector fuel1 final_result run_time1 w1 = Some (res1, log1, w1') ->
  entropy_collector fuel2 final_result run_time2 w2 = Some (res2, log2, w2') ->
  concat (encoded (dequeued log1)) = concat (encoded (dequeued log2)) ->
  res1 = res2.
Proof.
  intros H1 H2 Hsame.
  rewrite (entropy_collector_digest _ _ _ _ _ _ _ H1).
  rewrite (entropy_collector_digest _ _ _ _ _ _ _ H2).
  rewrite Hsame. reflexivity.
Qed.

Lemma digest_ignores_sample_boundaries_witness :
  exists res1 res2 log1 log2 w1' w2',
    entropy_collector 60 [] 0 ab_c_world = Some (res1, log1, w1') /\
    entropy_collector 60 [] 0 a_bc_world = Some (res2, log2, w2') /\
    concat (encoded (dequeued log1)) = concat (encoded (dequeued log2)) /\
    dequeued log1 <> dequeued log2 /\
    res1 = res2.
Proof.
  let r1 := eval vm_compute in (entropy_collector 60 [] 0 ab_c_world) in
  let r2 := eval vm_compute in (entropy_collector 60 [] 0 a_bc_world) in
  match r1 with
  | Some (?res1, ?log1, ?w1') =>
      match r2 with
      | Some (?res2, ?log2, ?w2') => exists res1, res2, log1, log2, w1', w2'
      end
  end.
  split; [vm_compute; reflexivity|].
  split; [vm_compute; reflexivity|].
  split; [vm_compute; reflexivity|].
  split; [vm_compute; discriminate|].
  eapply (digest_ignores_sample_boundaries world world _ _ 60%nat 60%nat [] 0 0
            ab_c_world a_bc_world).
  - vm_compute. reflexivity.
  - vm_compute. reflexivity.
  - vm_compute. reflexivity.
Defined.

(** ** X13: waiting, then draining *)

(** A turn of the drain: the deadline has passed and a sample is popped. *)
Definition drain_turn (t : turn) : bool :=
  late t && match got t with Some _ => true | None => false end.

Module Phases.

Lemma all_late_pops (new : list turn) :
  forallb late new = true -> late_timeouts new = 0%nat ->
  forallb drain_turn new = true.
Proof.
  induction new as [|t new IH]; [reflexivity|].
  cbn [forallb]. rewrite late_timeouts_cons. intros Hl Ht.
  apply andb_true_iff in Hl as [Hl1 Hl2]. unfold drain_turn at 1.
  rewrite Hl1 in *. cbn [andb] in *.
  destruct (got t); [|discriminate]. apply IH; [exact Hl2 | lia].
Qed.

Lemma world_loop_phases (fuel : nat) : forall end_time h log w h' log' w',
  collector_loop fuel end_time h log w = Some (h', log', w') ->
  exists early drain,
    log' = log ++ early ++ drain /\
    forallb (fun t => negb (late t)) early = true /\
    forallb drain_turn drain = true.
Proof.
  induction fuel as [|fuel IH]; intros end_time h log w h' log' w' Hrun;
    [discriminate|].
  destruct (now w <? end_time) eqn:C.
  - cbn [collector_loop time_time world_env world_time] in Hrun.
    rewrite C in Hrun. cbn [queue_get world_env negb] in Hrun.
    destruct (world_get w) as [[s|] w3];
      [destruct (encode s) as [bytes|]|];
      apply IH in Hrun; destruct Hrun as (early & drain & -> & He & Hd);
      [exists (Turn false (Some s) :: early), drain
      |exists (Turn false (Some s) :: early), drain
      |exists (Turn false None :: early), drain];
      (split; [rewrite <- app_assoc; reflexivity|]);
      (split; [cbn [forallb late negb andb]; exact He | exact Hd]).
  - destruct (world_loop_traced _ _ _ _ _ _ _ _ Hrun) as (new & -> & Htr).
    apply Z.ltb_ge in C.
    exists [], new. split; [reflexivity|]. split; [reflexivity|].
    apply all_late_pops; [exact (tr_late _ _ _ _ Htr C) | exact (tr_late_timeouts _ _ _ _ Htr)].
Qed.

(** How long a [get] takes. *)
Lemma world_get_time w :
  tick (snd (world_get w)) = tick w /\
  now (snd (world_get w)) <= now w + timeout + Z.of_N (tick w) /\
  (fifo (arrive w) <> [] -> now (snd (world_get w)) = now w + Z.of_N (tick w)).
Proof.
  unfold world_get.
  pose proof (arrive_now w) as Hn. pose proof (arrive_tick w) as Hk.
  pose proof (N2Z.is_nonneg (tick w)) as Ht.
  destruct (fifo (arrive w)) as [|s q].
  - destruct (pending (arrive w)) as [|[ts s] p].
    + cbn [snd tick now]. rewrite Hn, Hk.
      split; [reflexivity|]. split; [lia|]. intros H. contradiction.
    + destruct (ts <=? now (arrive w) + timeout) eqn:C; cbn [snd tick now];
        rewrite ?Hn, ?Hk in *.
      * apply Z.leb_le in C. split; [reflexivity|]. split; [lia|].
        intros H. contradiction.
      * split; [reflexivity|]. split; [lia|]. intros H. contradiction.
  - cbn [snd tick now]. rewrite Hn, Hk.
    split; [reflexivity|]. split; [unfold timeout; lia|]. intros _. reflexivity.
Qed.

(** The loop returns at most one timeout and one sample after the deadline,
    plus the time spent on the samples popped after it. *)
Lemma world_loop_return_time (fuel : nat) : forall end_time h log w h' log' w',
  collector_loop fuel end_time h log w = Some (h', log', w') ->
  exists new,
    log' = log ++ new /\
    tick w' = tick w /\
    now w' <= Z.max (now w) (end_time + 99 + Z.of_N (tick w))
              + Z.of_N (tick w) * Z.of_nat (late_pops new).
Proof.
  induction fuel as [|fuel IH]; intros end_time h log w h' log' w' Hrun;
    [discriminate|].
  cbn [collector_loop time_time world_env world_time] in Hrun.
  pose proof (N2Z.is_nonneg (tick w)) as Ht.
  destruct (now w <? end_time) eqn:C.
  - apply Z.ltb_lt in C. cbn [queue_get world_env negb] in Hrun.
    destruct (world_get_time w) as (Hk & Hn & _).
    destruct (world_get w) as [r w3]. cbn [snd] in Hk, Hn.
    assert (Hrest : exists new,
               log' = (log ++ [Turn false r]) ++ new /\
               tick w' = tick w3 /\
               now w' <= Z.max (now w3) (end_time + 99 + Z.of_N (tick w3))
                         + Z.of_N (tick w3) * Z.of_nat (late_pops new)).
    { destruct r as [s|]; [destruct (encode s)|]; exact (IH _ _ _ _ _ _ _ Hrun). }
    destruct Hrest as (new & -> & Hk' & Hn').
    exists (Turn false r :: new).
    split; [rewrite <- app_assoc; reflexivity|].
    split; [congruence|].
    rewrite late_pops_cons. cbn [late andb Nat.add].
    rewrite Hk in Hn'. unfold timeout in Hn. lia.
  - apply Z.ltb_ge in C. cbn [queue_empty world_env world_empty negb] in Hrun.
    destruct (fifo (arrive w)) as [|s0 q0] eqn:F; cbn [negb] in Hrun.
    + injection Hrun as <- <- <-. exists []. rewrite app_nil_r.
      split; [reflexivity|]. rewrite arrive_tick, arrive_now.
      split; [reflexivity|]. cbn [late_pops filter length]. lia.
    + cbn [queue_get world_env] in Hrun.
      destruct (world_get_time (arrive w)) as (Hk & _ & Hn).
      rewrite arrive_idem, arrive_tick, arrive_now in *.
      specialize (Hn ltac:(rewrite F; discriminate)).
      destruct (world_get_after_empty w) as (s & w3 & G & _ & _);
        [rewrite F; discriminate|].
      rewrite G in Hrun, Hk, Hn. cbn [snd] in Hk, Hn.
      assert (Hrest : exists new,
                 log' = (log ++ [Turn true (Some s)]) ++ new /\
                 tick w' = tick w3 /\
                 now w' <= Z.max (now w3) (end_time + 99 + Z.of_N (tick w3))
                           + Z.of_N (tick w3) * Z.of_nat (late_pops new)).
      { destruct (encode s); exact (IH _ _ _ _ _ _ _ Hrun). }
      destruct Hrest as (new & -> & Hk' & Hn').
      exists (Turn true (Some s) :: new).
      split; [rewrite <- app_assoc; reflexivity|].
      split; [congruence|].
      rewrite late_pops_cons. cbn [late got andb].
      rewrite Hk in Hn'. lia.
Qed.

Lemma world_collector_return_time (w : world) fuel final_result run_time res log w' :
  entropy_collector fuel final_result run_time w = Some (res, log, w') ->
  now w' <= now w + Z.max 0 (run_time + 99 + Z.of_N (tick w))
            + Z.of_N (tick w) * Z.of_nat (late_pops log).
Proof.
  unfold entropy_collector. cbn [time_time world_env world_time].
  destruct (collector_loop fuel (now w + run_time) new [] w)
    as [[[h l] w2]|] eqn:Hrun; [|discriminate].
  intros H. injection H as <- <- <-.
  destruct (world_loop_return_time _ _ _ _ _ _ _ _ Hrun) as (l' & -> & _ & Hn).
  cbn [app]. lia.
Qed.

(** The same for a world known by its clock, its tick and its size. *)
Lemma return_window (w : world) c k (n : nat) fuel final_result run_time res log w' :
  now w = c -> tick w = k -> items w = n -> 0 <= run_time ->
  entropy_collector fuel final_result run_time w = Some (res, log, w') ->
  finished (c + run_time) w log w' ->
  c + run_time <= now w' <= c + run_time + 99 + Z.of_N k * (1 + Z.of_nat n).
Proof.
  intros Hc Hk Hn Hrt Hrun Hfin.
  pose proof (world_collector_return_time _ _ _ _ _ _ _ Hrun) as Hret.
  pose proof (fin_late_pops _ _ _ _ Hfin) as Hlp.
  pose proof (fin_deadline _ _ _ _ Hfin) as Hd.
  rewrite Hc, Hk in Hret. rewrite Hn in Hlp.
  pose proof (N2Z.is_nonneg k) as Hk0.
  split; [exact Hd|]. nia.
Qed.

End Phases.

(** A queue with three samples and a collector that needs 5 ms for each. *)
Definition slow_world : world :=
  World 0 5 [] [of_string "a"; of_string "b"; of_string "c"].

(** X13. A run of the collector has two phases: turns before the deadline,
    which pop a sample or time out, and then the drain, in which every turn
    pops a sample; once the deadline has passed the collector never waits
    again. *)
Theorem collector_waits_then_drains
    (w : world) fuel final_result run_time res log w' :
  entropy_collector fuel final_result run_time w = Some (res, log, w') ->
  exists early drain,
    log = early ++ drain /\
    forallb (fun t => negb (late t)) early = true /\
    forallb drain_turn drain = true.
Proof.
  unfold entropy_collector. cbn [time_time world_env world_time].
  destruct (collector_loop fuel (now w + run_time) new [] w)
    as [[[h l] w2]|] eqn:Hrun; [|discriminate].
  intros H. injection H as <- <- <-.
  destruct (Phases.world_loop_phases _ _ _ _ _ _ _ _ Hrun)
    as (early & drain & -> & He & Hd).
  exists early, drain. split; [reflexivity|]. split; [exact He | exact Hd].
Qed.

Lemma collector_waits_then_drains_witness :
  exists res log w',
    entropy_collector 60 [] 3 slow_world = Some (res, log, w') /\
    log = [Turn false (Some (of_string "a"))] ++
          [Turn true (Some (of_string "b")); Turn true (Some (of_string "c"))] /\
    exists early drain,
      log = early ++ drain /\
      forallb (fun t => negb (late t)) early = true /\
      forallb drain_turn drain = true.
Proof.
  let r := eval vm_compute in (entropy_collector 60 [] 3 slow_world) in
  match r with
  | Some (?res, ?log, ?w') => exists res, log, w'
  end.
  split; [vm_compute; reflexivity|].
  split; [vm_compute; reflexivity|].
  eapply (collector_waits_then_drains slow_world 60%nat [] 3).
  vm_compute. reflexivity.
Defined.

(** ** X14: when the collector returns *)

(** X14. The collector returns no later than its deadline, plus one timeout
    of [queue.get] (less a millisecond) and the time for one sample, plus the
    time it spends on the samples it pops after the deadline. With a
    non-positive window only the last term is left. *)
Theorem collector_return_time
    (w : world) fuel final_result run_time res log w' :
  entropy_collector fuel final_result run_time w = Some (res, log, w') ->
  now w' <= now w + Z.max 0 (run_time + 99 + Z.of_N (tick w))
            + Z.of_N (tick w) * Z.of_nat (late_pops log).
Proof. exact (Phases.world_collector_return_time w fuel final_result run_time res log w'). Qed.

Lemma collector_return_time_witness :
  exists res log w',
    entropy_collector 60 [] 3 slow_world = Some (res, log, w') /\
    now w' = 15 /\ late_pops log = 2%nat /\
    now w' <= now slow_world + Z.max 0 (3 + 99 + Z.of_N (tick slow_world))
              + Z.of_N (tick slow_world) * Z.of_nat (late_pops log).
Proof.
  let r := eval vm_compute in (entropy_collector 60 [] 3 slow_world) in
  match r with
  | Some (?res, ?log, ?w') => exists res, log, w'
  end.
  split; [vm_compute; reflexivity|].
  split; [vm_compute; reflexivity|].
  split; [vm_compute; reflexivity|].
  eapply (collector_return_time slow_world 60%nat [] 3).
  vm_compute. reflexivity.
Defined.

(** ** X16: which samples cannot be encoded *)




(** ** X17: when the system returns *)

Lemma collector_world_now entropy_pool sys :
  now (collector_world entropy_pool sys) = clock sys.
Proof. reflexivity. Qed.

(** X17. [run_chaotic_system(D)], [D] not negative, returns when the window
    has passed and no later than [D] plus 99 ms plus the time the collector
    needs for 30001 samples: the three generators put 30000. *)
Theorem system_return_time sys total_time fuel :
  (enough total_time <= fuel)%nat ->
  0 <= total_time ->
  exists d m w',
    run_chaotic_system sys fuel total_time = Some (Some d, m) /\
    m_world m = Some w' /\
    clock sys + total_time <= now w' <=
      clock sys + total_time + 99 + Z.of_N (cpu sys) * 30001.
Proof.
  intros Hfuel Hpos.
  destruct (run_with_pool_returns PyNone sys total_time fuel Hfuel)
    as (log & w' & Hcol & Hfin & Hrun).
  cbv zeta in Hcol, Hrun.
  rewrite run_chaotic_system_eq.
  exists (hex (sha256 (concat (encoded (dequeued log))))).
  exists (final_machine PyNone sys total_time
            [hex (sha256 (concat (encoded (dequeued log))))] log w').
  exists w'. split; [exact Hrun|]. split; [reflexivity|].
  exact (Phases.return_window (collector_world PyNone sys) (clock sys) (cpu sys)
           (Z.to_nat 30000) fuel [] total_time _ log w'
           (collector_world_now PyNone sys) (collector_world_tick PyNone sys)
           (collector_world_items PyNone sys) Hpos Hcol Hfin).
Qed.

Lemma system_return_time_witness :
  (enough 5000 <= enough 5000)%nat /\ 0 <= 5000 /\
  exists d m w',
    run_chaotic_system quiet_system (enough 5000) 5000 = Some (Some d, m) /\
    m_world m = Some w' /\
    clock quiet_system + 5000 <= now w' <=
      clock quiet_system + 5000 + 99 + Z.of_N (cpu quiet_system) * 30001.
Proof.
  split; [apply le_n|]. split; [lia|].
  exact (system_return_time quiet_system 5000 (enough 5000) (le_n _) ltac:(lia)).
Defined.

(** ** X18: the jitter does not reach the samples *)

Lemma walk_value_ext o1 o2 b k :
  (forall i, os_random o1 i = os_random o2 i) -> walk_value o1 b k = walk_value o2 b k.
Proof. intros H. unfold walk_value. f_equal. apply map_ext. intros i. apply H. Qed.

Lemma walk_position_ext o1 o2 b p k :
  (forall i, os_random o1 i = os_random o2 i) ->
  walk_position o1 b p k = walk_position o2 b p k.
Proof.
  intros H. induction k as [|k IH]; [reflexivity|].
  cbn [walk_position]. unfold walk_shift.
  rewrite IH, (walk_value_ext o1 o2 b k H). reflexivity.
Qed.

(** The oracle of the examples with other draws for the sleeps. *)
Definition jitter_oracle : oracle :=
  Oracle (fun k => if (k <? 6)%nat then rand demo_oracle k else 0.75%float)
         (os_random demo_oracle) (perf_counter demo_oracle).

(** X18. The draws of [random.random()] that set the sleeps never reach the
    samples: two runs of a generator that agree on the draws made before the
    loop, on the bytes of [os.urandom] and on the clock readings put the same
    samples, whatever the draws inside the loop are. *)
Theorem samples_do_not_depend_on_jitter f entropy_pool queue steps o1 o2 :
  (forall i, (i < draws_before_loop f)%nat -> rand o1 i = rand o2 i) ->
  (forall b, os_random o1 b = os_random o2 b) ->
  (forall k, perf_counter o1 k = perf_counter o2 k) ->
  puts (run (body f entropy_pool queue steps) o1) =
  puts (run (body f entropy_pool queue steps) o2).
Proof.
  intros Hr Hb Hc. rewrite !puts_sends.
  destruct f; cbn [body draws_before_loop] in *.
  - rewrite !logistic_sends, !map_map. apply map_ext. intros k. cbn [snd].
    unfold logistic_r, logistic_x0.
    rewrite (Hr 0%nat ltac:(lia)), (Hr 1%nat ltac:(lia)), Hc. reflexivity.
  - rewrite !lorenz_sends, !map_map. apply map_ext. intros k. cbn [snd].
    unfold lorenz_sigma, lorenz_rho, lorenz_beta, lorenz_p0.
    rewrite (Hr 0%nat ltac:(lia)), (Hr 1%nat ltac:(lia)), (Hr 2%nat ltac:(lia)),
      (Hr 3%nat ltac:(lia)), (Hr 4%nat ltac:(lia)), (Hr 5%nat ltac:(lia)), Hc.
    reflexivity.
  - rewrite !random_walk_sends, !map_map. apply map_ext. intros k. cbn [snd].
    rewrite (walk_position_ext o1 o2 0 _ (S k) Hb), (walk_value_ext o1 o2 0 k Hb), Hc.
    reflexivity.
Qed.

Lemma samples_do_not_depend_on_jitter_witness :
  (forall i, (i < draws_before_loop LorenzSystem)%nat ->
             rand demo_oracle i = rand jitter_oracle i) /\
  (forall b, os_random demo_oracle b = os_random jitter_oracle b) /\
  (forall k, perf_counter demo_oracle k = perf_counter jitter_oracle k) /\
  rand demo_oracle 6 <> rand jitter_oracle 6 /\
  puts (run (body LorenzSystem PyNone 0 3) demo_oracle) =
  puts (run (body LorenzSystem PyNone 0 3) jitter_oracle).
Proof.
  assert (H1 : forall i, (i < draws_before_loop LorenzSystem)%nat ->
                         rand demo_oracle i = rand jitter_oracle i).
  { intros i Hi. cbn [draws_before_loop] in Hi.
    do 6 (destruct i as [|i]; [reflexivity|]). lia. }
  assert (H2 : forall b, os_random demo_oracle b = os_random jitter_oracle b)
    by (intros b; reflexivity).
  assert (H3 : forall k, perf_counter demo_oracle k = perf_counter jitter_oracle k)
    by (intros k; reflexivity).
  split; [exact H1|]. split; [exact H2|]. split; [exact H3|]. split.
  - intros H. apply (f_equal (fun x => PrimFloat.ltb x 0.5%float)) in H.
    vm_compute in H. discriminate.
  - exact (samples_do_not_depend_on_jitter LorenzSystem PyNone 0%nat 3
             demo_oracle jitter_oracle H1 H2 H3).
Defined.

(* ------------------------------------------------------------------ *)
(** ** The script: [if __name__ == "__main__"] *)
(* ------------------------------------------------------------------ *)

Module Main.
Local Open Scope N_scope.





End Main.


